(** * FinTalk audio pipeline: a shallow embedding of [pages/audio_utils.py]

    The development follows the Python module function by function:
    the WAV header builder, the format normaliser, the silence detector,
    the chunker and the transcription orchestrator (together with
    [audio_to_text] of [pages/api_utils.py], which the orchestrator
    calls).  Python [bytes] are lists of [Byte.byte], Python [int]s are
    [Z], Python [float]s are IEEE 754 binary64 values of [SpecFloat],
    exceptions are an explicit [result] type and the file system is a
    finite map from paths to file contents. *)

From Stdlib Require Import ZArith List Lia Bool.
From Stdlib Require Import Strings.Byte SpecFloat Sorting.Sorted.
From stdpp Require Import base option list strings gmap pretty.

Local Open Scope Z_scope.

(** ** Python [bytes] and [int.to_bytes] *)

Module PyBytes.

#[global] Instance byte_eq_decision : EqDecision byte := Byte.byte_eq_dec.

Abbreviation bytes := (list byte).

(** [len(b)] as a Python [int]. *)
Definition len {A} (l : list A) : Z := Z.of_nat (length l).

Definition byte_of_Z (z : Z) : byte :=
  match Byte.of_N (Z.to_N z) with
  | Some b => b
  | None => x00
  end.

Definition Z_of_byte (b : byte) : Z := Z.of_N (Byte.to_N b).

(** The [k] low-order base-256 digits of [n], least significant first. *)
Fixpoint digits_le (k : nat) (n : Z) : bytes :=
  match k with
  | O => []
  | S k' => byte_of_Z (n mod 256) :: digits_le k' (n / 256)
  end.

(** [n.to_bytes(k, 'little')]: raises [OverflowError] (here [None])
    when [n] is negative or does not fit in [k] bytes. *)
Definition to_bytes (n : Z) (k : nat) : option bytes :=
  if (0 <=? n) && (n <? 256 ^ Z.of_nat k)
  then Some (digits_le k n)
  else None.

(** [int.from_bytes(b, 'little')], used to read header fields back. *)
Definition from_bytes (b : bytes) : Z :=
  fold_right (fun d acc => Z_of_byte d + 256 * acc) 0 b.

(** The slice [b[i:j]] for [0 <= i <= j]; like Python's it never raises
    and stops at the end of [b]. *)
Definition slice (b : bytes) (i j : nat) : bytes :=
  firstn (j - i) (skipn i b).

Definition bytes_eqb (a b : bytes) : bool :=
  bool_decide (a = b).

End PyBytes.
Import PyBytes.

(** ASCII literals that occur in the source. *)
Definition b_RIFF : bytes := [x52; x49; x46; x46].
Definition b_WAVE : bytes := [x57; x41; x56; x45].
Definition b_fmt_ : bytes := [x66; x6d; x74; x20].
Definition b_data : bytes := [x64; x61; x74; x61].

(** ** [create_basic_wav] (audio_utils.py, lines 143-183) *)

Section WavHeader.

Definition sample_rate : Z := 44100.
Definition num_channels : Z := 1.
Definition bits_per_sample : Z := 16.

(** Lines 162-175: the header is built field by field; the first
    [to_bytes] that overflows raises and the whole builder fails. *)
Definition wav_header (data_length : Z) : option bytes :=
  chunk_size ← to_bytes (36 + data_length) 4;
  subchunk1_size ← to_bytes 16 4;
  audio_format ← to_bytes 1 2;
  channels ← to_bytes num_channels 2;
  rate ← to_bytes sample_rate 4;
  byte_rate ← to_bytes (sample_rate * num_channels * bits_per_sample / 8) 4;
  block_align ← to_bytes (num_channels * bits_per_sample / 8) 2;
  bits ← to_bytes bits_per_sample 2;
  subchunk2_size ← to_bytes data_length 4;
  Some (b_RIFF ++ chunk_size ++ b_WAVE ++ b_fmt_ ++ subchunk1_size
          ++ audio_format ++ channels ++ rate ++ byte_rate
          ++ block_align ++ bits ++ b_data ++ subchunk2_size).

(** The [try]/[except Exception] of the source turns every failure
    into [None]; on success the payload follows the header. *)
Definition create_basic_wav (audio_data : bytes) : option bytes :=
  match wav_header (len audio_data) with
  | Some header => Some (header ++ audio_data)
  | None => None
  end.

End WavHeader.

(** Header field at byte offset [off], [width] bytes, little-endian. *)
Definition le_field (b : bytes) (off width : nat) : Z :=
  from_bytes (slice b off (off + width)).


(** The 44 header bytes for a payload of [n] bytes, written out. *)
Definition header_of (n : Z) : bytes :=
  b_RIFF ++ digits_le 4 (36 + n) ++ b_WAVE ++ b_fmt_ ++ digits_le 4 16
    ++ digits_le 2 1 ++ digits_le 2 1 ++ digits_le 4 44100
    ++ digits_le 4 88200 ++ digits_le 2 2 ++ digits_le 2 16
    ++ b_data ++ digits_le 4 n.

(** ** Exceptions, the world and the effect monad *)

(** The exception classes the modelled code can meet; all of them derive
    from Python's [Exception], which is what every handler of the module
    catches. *)
Inductive exn : Set :=
| ValueError | TypeError | OverflowError | ZeroDivisionError
| KeyError | WaveError | OSError | ImportError | LibraryError.

Inductive result (A : Type) : Type :=
| Ok (a : A)
| Raise (e : exn).
Arguments Ok {A} a.
Arguments Raise {A} e.

(** Calls that leave the process, recorded in the order they happen.
    Log lines and Streamlit messages change no result and are left out. *)
Inductive event : Type :=
| EvSplitAudio (input_file : string)
| EvAudioToText (audio_file_path : string)
| EvHttpPost (filename : string) (content : bytes).

(** The file system (path to contents) and the trace of calls. *)
Record World : Type := mkWorld {
  fs : gmap string bytes;
  trace : list event
}.

Definition M (A : Type) : Type := World -> result A * World.

Definition ret {A} (a : A) : M A := fun w => (Ok a, w).

Definition raise {A} (e : exn) : M A := fun w => (Raise e, w).

Definition bind {A B} (m : M A) (k : A -> M B) : M B :=
  fun w => match m w with
           | (Ok a, w') => k a w'
           | (Raise e, w') => (Raise e, w')
           end.

Notation "x <~ c1 ;; c2" := (bind c1 (fun x => c2))
  (at level 100, c1 at next level, right associativity).
Notation "c1 ;;; c2" := (bind c1 (fun _ => c2))
  (at level 100, right associativity).

Definition lift {A} (r : result A) : M A := fun w => (r, w).

(** [try: body except Exception: handler].  Effects of [body] up to the
    raise stay in the world. *)
Definition try_except {A} (body : M A) (handler : exn -> M A) : M A :=
  fun w => match body w with
           | (Ok a, w') => (Ok a, w')
           | (Raise e, w') => handler e w'
           end.

(** [try: body finally: cleanup]: [cleanup] runs on every exit path and
    the outcome of [body] is kept unless [cleanup] itself raises. *)
Definition try_finally {A} (body : M A) (cleanup : M unit) : M A :=
  fun w => match body w with
           | (r, w') =>
               match cleanup w' with
               | (Ok _, w'') => (r, w'')
               | (Raise e, w'') => (Raise e, w'')
               end
           end.

Definition log_event (e : event) : M unit :=
  fun w => (Ok tt, mkWorld (fs w) (trace w ++ [e])).

(** [os.path.exists], [os.path.getsize], [os.remove] and writing a file
    opened with mode ["wb"]. *)
Definition os_path_exists (p : string) : M bool :=
  fun w => (Ok (bool_decide (is_Some (fs w !! p))), w).

Definition os_path_getsize (p : string) : M Z :=
  fun w => match fs w !! p with
           | Some content => (Ok (len content), w)
           | None => (Raise OSError, w)
           end.

Definition os_remove (p : string) : M unit :=
  fun w => match fs w !! p with
           | Some _ => (Ok tt, mkWorld (delete p (fs w)) (trace w))
           | None => (Raise OSError, w)
           end.

Definition read_file (p : string) : M bytes :=
  fun w => match fs w !! p with
           | Some content => (Ok content, w)
           | None => (Raise OSError, w)
           end.

Definition write_file (p : string) (content : bytes) : M unit :=
  fun w => (Ok tt, mkWorld (<[p := content]> (fs w)) (trace w)).

(** ** Python numbers: [int], binary64 [float] and their mixed arithmetic *)

Module PyNum.

Definition prec64 : Z := 53.
Definition emax64 : Z := 1024.

Inductive pynum : Type :=
| PInt (z : Z)
| PFloat (f : spec_float).

(** [float(z)], correctly rounded; exact for [|z| <= 2^53]. *)
Definition float_of_int (z : Z) : spec_float :=
  binary_normalize prec64 emax64 z 0 false.


(** The exact value of a finite float as a fraction [num / den],
    [den > 0]. *)
Definition float_frac (f : spec_float) : option (Z * Z) :=
  match f with
  | S754_zero _ => Some (0, 1)
  | S754_finite s m e =>
      let v := if s then Z.neg m else Z.pos m in
      if 0 <=? e then Some (v * 2 ^ e, 1) else Some (v, 2 ^ (- e))
  | S754_infinity _ | S754_nan => None
  end.

(** [n / r] on two [int]s.  Python rounds the exact quotient once; the
    quotient of the converted operands is the same value whenever both
    are below [2^53] in magnitude, which covers the 32-bit fields of a
    WAV header.  A quotient too large for a float raises. *)
Definition true_div (n r : Z) : result spec_float :=
  if r =? 0 then Raise ZeroDivisionError
  else
    let q := SFdiv prec64 emax64 (float_of_int n) (float_of_int r) in
    match float_frac q with
    | Some _ => Ok q
    | None => Raise OverflowError
    end.

(** [a < f] for an [int] and a [float]; Python compares the two exactly. *)
Definition int_lt_float (a : Z) (f : spec_float) : bool :=
  match float_frac f with
  | Some (num, den) => a * den <? num
  | None => match f with S754_infinity false => true | _ => false end
  end.

(** [f < a]. *)
Definition float_lt_int (f : spec_float) (a : Z) : bool :=
  match float_frac f with
  | Some (num, den) => num <? a * den
  | None => match f with S754_infinity true => true | _ => false end
  end.

Definition py_lt (x y : pynum) : bool :=
  match x, y with
  | PInt a, PInt b => a <? b
  | PInt a, PFloat f => int_lt_float a f
  | PFloat f, PInt a => float_lt_int f a
  | PFloat f, PFloat g => SFltb f g
  end.

(** The builtin [min(a, b)]: [b] only when it is strictly smaller. *)
Definition py_min (a b : pynum) : pynum :=
  if py_lt b a then b else a.

Definition py_mul (x y : pynum) : pynum :=
  match x, y with
  | PInt a, PInt b => PInt (a * b)
  | PInt a, PFloat f => PFloat (SFmul prec64 emax64 (float_of_int a) f)
  | PFloat f, PInt a => PFloat (SFmul prec64 emax64 f (float_of_int a))
  | PFloat f, PFloat g => PFloat (SFmul prec64 emax64 f g)
  end.

(** [int(x)]: truncation toward zero; infinities and NaN raise. *)
Definition py_int (x : pynum) : result Z :=
  match x with
  | PInt z => Ok z
  | PFloat f =>
      match f, float_frac f with
      | _, Some (num, den) => Ok (Z.quot num den)
      | S754_nan, None => Raise ValueError
      | _, None => Raise OverflowError
      end
  end.

(** The least integer not below a finite float (0 for the others). *)
Definition float_ceil (f : spec_float) : Z :=
  match float_frac f with
  | Some (num, den) => - ((- num) / den)
  | None => 0
  end.

End PyNum.
Import PyNum.

(** ** Python [str]: sequences of Unicode code points *)

Module PyStr.

Abbreviation str := (list N).

(** An ASCII literal of the source as a [str]. *)
Definition of_string (s : string) : str :=
  map (fun a => N.of_nat (Ascii.nat_of_ascii a)) (String.list_ascii_of_string s).

(** [str.isspace] on one character: the code points CPython classifies
    as whitespace. *)
Definition isspace (c : N) : bool :=
  ((9 <=? c) && (c <=? 13) || (28 <=? c) && (c <=? 32)
   || (c =? 133) || (c =? 160) || (c =? 5760)
   || (8192 <=? c) && (c <=? 8202)
   || (c =? 8232) || (c =? 8233) || (c =? 8239) || (c =? 8287)
   || (c =? 12288))%N.

Fixpoint lstrip (s : str) : str :=
  match s with
  | [] => []
  | c :: s' => if isspace c then lstrip s' else s
  end.

Definition rstrip (s : str) : str := rev (lstrip (rev s)).

(** [s.strip()]: whitespace removed at both ends. *)
Definition strip (s : str) : str := rstrip (lstrip s).

(** Truth value of a [str]: non-empty. *)
Definition truthy (s : str) : bool :=
  match s with [] => false | _ => true end.

Definition space : N := 32%N.

End PyStr.
Import PyStr.

(** ** JSON payloads of the speech-to-text service *)

#[warnings="-register-all"] Inductive json : Type :=
| JNull
| JBool (b : bool)
| JNum (n : Z)
| JFloat (f : spec_float)
| JStr (s : str)
| JArr (items : list json)
| JObj (fields : list (str * json)).

(** [payload[key]] on a decoded object: the first binding of [key]. *)
Fixpoint dict_get (fields : list (str * json)) (key : str) : option json :=
  match fields with
  | [] => None
  | (k, v) :: rest => if bool_decide (k = key) then Some v else dict_get rest key
  end.

(** What the service call can come back with: [requests.post] raised, or
    a response with a status code whose body does or does not decode as
    JSON. *)
Inductive http_outcome : Type :=
| HttpFailed
| HttpResponse (status_code : Z) (body : option json).

(** ** The [wave] module's reader object *)

Record Wave_read : Type := mkWave {
  getnchannels : Z;
  getsampwidth : Z;
  getframerate : Z;
  getnframes : Z;
  data_chunk : bytes
}.

(** [audio.setpos(pos)]: positions outside [0 .. nframes] raise. *)
Definition setpos (audio : Wave_read) (pos : Z) : result unit :=
  if (pos <? 0) || (getnframes audio <? pos) then Raise WaveError else Ok tt.

(** [audio.readframes(n)] at frame position [pos]: the next
    [n * framesize] bytes of the data chunk, fewer at its end; a negative
    byte count reads everything that is left. *)
Definition readframes (audio : Wave_read) (pos n : Z) : bytes :=
  let framesize := getnchannels audio * getsampwidth audio in
  let rest := skipn (Z.to_nat (pos * framesize)) (data_chunk audio) in
  if n =? 0 then []
  else if n * framesize <? 0 then rest
  else firstn (Z.to_nat (n * framesize)) rest.

(** ** What the module takes from outside the repository *)

Record Env : Type := mkEnv {
  (** [SOUNDFILE_AVAILABLE], fixed when the module is imported. *)
  SOUNDFILE_AVAILABLE : bool;
  (** [sf.read] of a file followed by [sf.write(..., format='WAV')]:
      the re-encoded bytes, or [None] when either raises. *)
  sf_reencode : bytes -> option bytes;
  (** [sf.read] of a file: the decoded samples as float64, frame after
      frame and channel after channel; [None] when decoding raises. *)
  sf_read : bytes -> option (list spec_float);
  (** [np.mean] of a float64 array. *)
  np_mean64 : list spec_float -> spec_float;
  (** [np.mean] of a float32 array. *)
  np_mean : list spec_float -> spec_float;
  (** [<] between a float32 scalar and the Python float [threshold]. *)
  np_less : spec_float -> spec_float -> bool;
  (** [wave.open(path, 'rb')] on a file's bytes; [None] when it raises. *)
  wave_open_rb : bytes -> option Wave_read;
  (** The bytes a [wave.open(path, 'wb')] writer leaves on disk for the
      given channel count, sample width, frame rate and frames; [None]
      when a setter or the write raises. *)
  wave_write : Z -> Z -> Z -> bytes -> option bytes;
  (** Whether [from .api_utils import audio_to_text] succeeds. *)
  api_utils_importable : bool;
  (** [os.getenv("SARVAM_API_KEY")]. *)
  SARVAM_API_KEY : option str;
  (** The [n]-th POST to the speech-to-text endpoint, for a file name and
      its contents. *)
  stt_post : nat -> string -> bytes -> http_outcome;
  (** [str(v)] for a JSON value that is not a string. *)
  py_repr : json -> str
}.

Section Pipeline.

Context (env : Env).

(** ** [audio_to_text] (api_utils.py, lines 40-104) *)

Definition json_is_str (key : str) (j : json) : bool :=
  match j with
  | JStr s => bool_decide (s = key)
  | _ => false
  end.

Fixpoint is_prefix (p s : str) : bool :=
  match p, s with
  | [], _ => true
  | _ :: _, [] => false
  | a :: p', b :: s' => bool_decide (a = b) && is_prefix p' s'
  end.

Fixpoint is_substring (p s : str) : bool :=
  is_prefix p s || match s with [] => false | _ :: s' => is_substring p s' end.

(** [key in payload]: dictionary key, list element or substring;
    [TypeError] for the values that are not containers. *)
Definition py_contains (payload : json) (key : str) : result bool :=
  match payload with
  | JObj d => Ok (bool_decide (is_Some (dict_get d key)))
  | JArr l => Ok (existsb (json_is_str key) l)
  | JStr s => Ok (is_substring key s)
  | _ => Raise TypeError
  end.

(** [payload[key]] with a [str] key. *)
Definition py_getitem (payload : json) (key : str) : result json :=
  match payload with
  | JObj d => match dict_get d key with
              | Some v => Ok v
              | None => Raise KeyError
              end
  | _ => Raise TypeError
  end.

Definition py_str (v : json) : str :=
  match v with
  | JStr s => s
  | _ => py_repr env v
  end.

(** Lines 93-95: the first of the keys that is present with a [str]
    value decides. *)
Fixpoint extract_top_level (payload : json) (keys : list str)
  : result (option str) :=
  match keys with
  | [] => Ok None
  | key :: rest =>
      match py_contains payload key with
      | Raise e => Raise e
      | Ok false => extract_top_level payload rest
      | Ok true =>
          match py_getitem payload key with
          | Raise e => Raise e
          | Ok (JStr s) => Ok (Some (strip s))
          | Ok _ => extract_top_level payload rest
          end
      end
  end.

(** Lines 99-101: the first of the keys present in the nested object. *)
Fixpoint extract_nested (nested : json) (keys : list str)
  : result (option str) :=
  match keys with
  | [] => Ok None
  | key :: rest =>
      match py_contains nested key with
      | Raise e => Raise e
      | Ok false => extract_nested nested rest
      | Ok true =>
          match py_getitem nested key with
          | Raise e => Raise e
          | Ok v => Ok (Some (strip (py_str v)))
          end
      end
  end.

Definition _extract_transcript_from_response (payload : json) : result str :=
  match extract_top_level payload
          [of_string "text"; of_string "transcript"; of_string "output"] with
  | Raise e => Raise e
  | Ok (Some s) => Ok s
  | Ok None =>
      match py_contains payload (of_string "result") with
      | Raise e => Raise e
      | Ok false => Ok []
      | Ok true =>
          match py_getitem payload (of_string "result") with
          | Raise e => Raise e
          | Ok (JObj d) =>
              match extract_nested (JObj d)
                      [of_string "text"; of_string "transcript"] with
              | Raise e => Raise e
              | Ok (Some s) => Ok s
              | Ok None => Ok []
              end
          | Ok _ => Ok []
          end
      end
  end.

(** [os.path.basename]: what follows the last ["/"]. *)
Fixpoint basename_aux (p acc : string) : string :=
  match p with
  | EmptyString => acc
  | String c p' =>
      if Ascii.eqb c (Ascii.ascii_of_nat 47) then basename_aux p' EmptyString
      else basename_aux p' (acc +:+ String c EmptyString)
  end.

Definition basename (p : string) : string := basename_aux p EmptyString.

Definition is_post (e : event) : bool :=
  match e with EvHttpPost _ _ => true | _ => false end.

(** [requests.post(SARVAM_STT_URL, files=..., timeout=60)]. *)
Definition requests_post (filename : string) (content : bytes)
  : M http_outcome :=
  fun w =>
    let n := length (filter (fun e => is_post e = true) (trace w)) in
    (Ok (stt_post env n filename content),
     mkWorld (fs w) (trace w ++ [EvHttpPost filename content])).

Definition api_key_set : bool :=
  match SARVAM_API_KEY env with
  | Some k => truthy k
  | None => false
  end.

Definition audio_to_text (audio_file_path : string) : M str :=
  log_event (EvAudioToText audio_file_path) ;;;
  if negb api_key_set then ret []
  else
    present <~ os_path_exists audio_file_path ;;
    size <~ (if present then os_path_getsize audio_file_path else ret 0) ;;
    if negb present || (size =? 0) then ret []
    else
      try_except
        (content <~ read_file audio_file_path ;;
         response <~ requests_post (basename audio_file_path) content ;;
         match response with
         | HttpFailed => raise LibraryError
         | HttpResponse status_code body =>
             if status_code =? 200 then
               match body with
               | Some payload => lift (_extract_transcript_from_response payload)
               | None => raise ValueError
               end
             else ret []
         end)
        (fun _ => ret []).

(** ** [_cleanup_temp_file] (lines 134-140) *)

Definition _cleanup_temp_file (temp_file : string) : M unit :=
  try_except
    (present <~ os_path_exists temp_file ;;
     if present then os_remove temp_file else ret tt)
    (fun _ => ret tt).

(** ** The chunker: [_create_audio_chunk] and [split_audio]
       (lines 240-303) *)

(** Lines 285-286: [int(start_time * frame_rate)] and
    [int(end_time * frame_rate)]. *)
Definition chunk_frame_range (start_time end_time : pynum) (frame_rate : Z)
  : result (Z * Z) :=
  match py_int (py_mul start_time (PInt frame_rate)) with
  | Raise e => Raise e
  | Ok start_frame =>
      match py_int (py_mul end_time (PInt frame_rate)) with
      | Raise e => Raise e
      | Ok end_frame => Ok (start_frame, end_frame)
      end
  end.

Definition chunk_name (index : Z) : string :=
  "chunk_" +:+ pretty index +:+ ".wav".

(** [with wave.open(chunk_filename, 'wb') as chunk_file: ...]: opening
    creates the file; when a setter or the write raises, the empty file
    stays behind and the exception goes on. *)
Definition write_wave (chunk_filename : string)
    (nchannels sampwidth framerate : Z) (frames : bytes) : M unit :=
  write_file chunk_filename [] ;;;
  match wave_write env nchannels sampwidth framerate frames with
  | Some content => write_file chunk_filename content
  | None => raise WaveError
  end.

(** The reader's position is set afresh by [setpos] in every call, so it
    is passed to [readframes] instead of being kept in the object. *)
Definition _create_audio_chunk (audio : Wave_read)
    (start_time end_time : pynum) (frame_rate index : Z)
  : M (option string) :=
  try_except
    (range <~ lift (chunk_frame_range start_time end_time frame_rate) ;;
     let '(start_frame, end_frame) := range in
     lift (setpos audio start_frame) ;;;
     let frames := readframes audio start_frame (end_frame - start_frame) in
     let chunk_filename := chunk_name index in
     write_wave chunk_filename (getnchannels audio) (getsampwidth audio)
       frame_rate frames ;;;
     ret (Some chunk_filename))
    (fun _ => ret None).

(** The [while start_time < total_duration] loop.  [start_time] stays an
    [int]; [end_time] is the [float] duration in the last round. *)
Fixpoint split_loop (fuel : nat) (audio : Wave_read) (frame_rate : Z)
    (total_duration : spec_float) (chunk_length start_time index : Z)
    (chunks : list string) : M (list string) :=
  match fuel with
  | O => ret chunks
  | S fuel' =>
      if int_lt_float start_time total_duration then
        let end_time :=
          py_min (PInt (start_time + chunk_length)) (PFloat total_duration) in
        chunk_filename <~ _create_audio_chunk audio (PInt start_time) end_time
                            frame_rate index ;;
        let chunks' := match chunk_filename with
                       | Some name => chunks ++ [name]
                       | None => chunks
                       end in
        split_loop fuel' audio frame_rate total_duration chunk_length
          (start_time + chunk_length) (index + 1) chunks'
      else ret chunks
  end.

(** Rounds the loop can make: [start_time] grows by at least one second
    per round and stops below [total_duration]. *)
Definition split_fuel (total_duration : spec_float) : nat :=
  S (Z.to_nat (float_ceil total_duration)).

(** [chunk_length] is a positive number of seconds (30 at the only call
    site); with a stride of zero or less the Python loop does not end.
    A file that cannot be opened, or a frame rate of zero, raises inside
    the [try] before any chunk exists, and the empty list is returned.
    The reader is given the file as it is when it is opened.  That is
    what the open reader goes on to see as long as [input_file] is not
    itself one of the [chunk_<i>.wav] the loop writes; what the frames
    are is stated under that condition only. *)
Definition split_audio (input_file : string) (chunk_length : positive)
  : M (list string) :=
  log_event (EvSplitAudio input_file) ;;;
  try_except
    (content <~ read_file input_file ;;
     match wave_open_rb env content with
     | None => raise WaveError
     | Some audio =>
         let frame_rate := getframerate audio in
         let num_frames := getnframes audio in
         total_duration <~ lift (true_div num_frames frame_rate) ;;
         split_loop (split_fuel total_duration) audio frame_rate
           total_duration (Z.pos chunk_length) 0 1 []
     end)
    (fun _ => ret []).

(** ** The orchestrator: [process_long_audio] (lines 371-409) *)

Definition import_api_utils : M unit :=
  if api_utils_importable env then ret tt else raise ImportError.

(** Lines 396-402: the accumulator grows by [transcript + " "] for a
    non-empty transcript; the chunk file is removed in every round. *)
Fixpoint process_chunks (chunks : list string) (final_transcript : str)
  : M str :=
  match chunks with
  | [] => ret final_transcript
  | chunk :: rest =>
      transcript <~ audio_to_text chunk ;;
      let final_transcript' :=
        if truthy transcript
        then final_transcript ++ transcript ++ [space]
        else final_transcript in
      _cleanup_temp_file chunk ;;;
      process_chunks rest final_transcript'
  end.

Definition process_long_audio_body (input_file : string) : M str :=
  import_api_utils ;;;
  present <~ os_path_exists input_file ;;
  size <~ (if present then os_path_getsize input_file else ret 0) ;;
  if negb present || (size =? 0) then ret []
  else
    chunks <~ split_audio input_file 30 ;;
    match chunks with
    | [] =>
        transcript <~ audio_to_text input_file ;;
        ret (if truthy transcript then strip transcript else [])
    | _ :: _ =>
        final_transcript <~ process_chunks chunks [] ;;
        ret (strip final_transcript)
    end.

Definition process_long_audio (input_file : string) : M str :=
  try_except (process_long_audio_body input_file) (fun _ => ret []).

(** ** The format normaliser: [convert_webm_to_wav] (lines 35-131) *)

Definition _try_soundfile_conversion (temp_file : string)
  : M (option bytes) :=
  if negb (SOUNDFILE_AVAILABLE env) then ret None
  else
    try_except
      (content <~ read_file temp_file ;;
       match sf_reencode env content with
       | Some wav_data => ret (Some wav_data)
       | None => raise LibraryError
       end)
      (fun _ => ret None).

Definition _check_existing_wav_format (audio_bytes : bytes) : option bytes :=
  if bytes_eqb (slice audio_bytes 0 4) b_RIFF
     && bytes_eqb (slice audio_bytes 8 12) b_WAVE
  then Some audio_bytes
  else None.

Definition _create_basic_wav_fallback (audio_data : bytes) : option bytes :=
  if len audio_data <=? 1000 then None
  else create_basic_wav audio_data.

(** Truth value of an [Optional[bytes]]: [None] and [b''] are false. *)
Definition truthy_bytes (b : option bytes) : bool :=
  match b with
  | Some (_ :: _) => true
  | _ => false
  end.

Definition temp_audio_input : string := "temp_audio_input".

Definition convert_webm_to_wav (audio_bytes : bytes) : M (option bytes) :=
  if len audio_bytes =? 0 then ret None
  else if len audio_bytes <? 100 then ret None
  else
    let temp_file := temp_audio_input in
    try_finally
      (try_except
         (write_file temp_file audio_bytes ;;;
          wav_data <~ _try_soundfile_conversion temp_file ;;
          let wav_data :=
            if truthy_bytes wav_data then wav_data
            else _check_existing_wav_format audio_bytes in
          let wav_data :=
            if truthy_bytes wav_data then wav_data
            else _create_basic_wav_fallback audio_bytes in
          if truthy_bytes wav_data then ret wav_data else ret None)
         (fun _ => ret None))
      (_cleanup_temp_file temp_file).

(** The priority chain of lines 65-79 as a value: the first strategy
    with a non-empty result wins. *)
Fixpoint first_truthy (candidates : list (option bytes)) : option bytes :=
  match candidates with
  | [] => None
  | c :: rest => if truthy_bytes c then c else first_truthy rest
  end.

Definition library_decode (audio_bytes : bytes) : option bytes :=
  if SOUNDFILE_AVAILABLE env then sf_reencode env audio_bytes else None.

Definition strategy_chain (audio_bytes : bytes) : option bytes :=
  first_truthy [library_decode audio_bytes;
                _check_existing_wav_format audio_bytes;
                _create_basic_wav_fallback audio_bytes].

(** ** The silence detector: [detect_silence] (lines 186-237) *)

Definition prec32 : Z := 24.
Definition emax32 : Z := 128.
Definition zero32 : spec_float := S754_zero false.

(** [a < b] on the exact values; used to say that a threshold is
    positive. *)
Definition float_positive (t : spec_float) : bool := SFltb zero32 t.

(** [np.frombuffer(audio_bytes, dtype=np.int16)] on a little-endian
    machine: two bytes per sample, low byte first, two's complement;
    [ValueError] when the length is odd. *)
Definition int16_of (lo hi : byte) : Z :=
  let u := Z_of_byte lo + 256 * Z_of_byte hi in
  if u <? 32768 then u else u - 65536.

Fixpoint np_frombuffer_int16 (b : bytes) : result (list Z) :=
  match b with
  | [] => Ok []
  | [_] => Raise ValueError
  | lo :: hi :: rest =>
      match np_frombuffer_int16 rest with
      | Ok samples => Ok (int16_of lo hi :: samples)
      | Raise e => Raise e
      end
  end.

(** [audio_array.astype(np.float32) / 32768.0], element by element. *)
Definition normalize_sample (s : Z) : spec_float :=
  SFdiv prec32 emax32 (binary_normalize prec32 emax32 s 0 false)
                      (binary_normalize prec32 emax32 32768 0 false).

Definition square32 (x : spec_float) : spec_float := SFmul prec32 emax32 x x.

(** [np.sqrt(np.mean(normalized**2))]. *)
Definition rms_of_samples (audio_array : list Z) : spec_float :=
  let normalized := map normalize_sample audio_array in
  SFsqrt prec32 emax32 (np_mean env (map square32 normalized)).

Definition _detect_silence_fallback (audio_bytes : bytes)
    (threshold : spec_float) : result bool :=
  if len audio_bytes <? 1000 then Ok true
  else
    match np_frombuffer_int16 audio_bytes with
    | Raise e => Raise e
    | Ok audio_array =>
        if len audio_array =? 0 then Ok true
        else Ok (np_less env (rms_of_samples audio_array) threshold)
    end.




Definition temp_silence_check : string := "temp_silence_check".

Definition square64 (x : spec_float) : spec_float := SFmul prec64 emax64 x x.

(** [np.sqrt(np.mean(data**2))] on the float64 samples [sf.read] gives. *)
Definition rms_of_data (data : list spec_float) : spec_float :=
  SFsqrt prec64 emax64 (np_mean64 env (map square64 data)).

(** The comparison [rms < threshold] is between a float64 scalar and a
    Python float, both binary64. *)
Definition _detect_silence_with_soundfile (audio_bytes : bytes)
    (threshold : spec_float) : M bool :=
  let temp_file := temp_silence_check in
  try_finally
    (write_file temp_file audio_bytes ;;;
     content <~ read_file temp_file ;;
     match sf_read env content with
     | Some data =>
         let rms := rms_of_data data in
         ret (SFltb rms threshold)
     | None => raise LibraryError
     end)
    (_cleanup_temp_file temp_file).

Definition detect_silence (audio_bytes : bytes) (threshold : spec_float)
  : M bool :=
  try_except
    (if SOUNDFILE_AVAILABLE env
     then _detect_silence_with_soundfile audio_bytes threshold
     else lift (_detect_silence_fallback audio_bytes threshold))
    (fun _ => ret false).

End Pipeline.

(** ** Vocabulary for the orchestrator's properties *)

(** The transcription attempts of the chunk loop, one per chunk and in
    order: the transcript each call returns, the chunk file removed right
    after it, and the world handed on to the next chunk. *)
Inductive chunk_run (env : Env)
  : list string -> World -> list str -> World -> Prop :=
| chunk_run_nil (w : World) : chunk_run env [] w [] w
| chunk_run_cons (chunk : string) (rest : list string) (w w' w'' w3 : World)
    (transcript : str) (transcripts : list str) :
    audio_to_text env chunk w = (Ok transcript, w') ->
    _cleanup_temp_file chunk w' = (Ok tt, w'') ->
    chunk_run env rest w'' transcripts w3 ->
    chunk_run env (chunk :: rest) w (transcript :: transcripts) w3.

(** No whitespace at either end. *)
Definition clean (t : str) : Prop :=
  lstrip t = t /\ lstrip (rev t) = rev t.

(** Every non-empty transcript followed by a single space, in order. *)
Definition spaced_concat (transcripts : list str) : str :=
  concat (map (fun t => t ++ [space]) (List.filter truthy transcripts)).

Definition is_transcription (e : event) : bool :=
  match e with EvAudioToText _ => true | _ => false end.

(** The calls of [audio_to_text] in a trace, in order. *)
Definition transcription_calls (tr : list event) : list event :=
  List.filter is_transcription tr.

(** ** numpy's float arithmetic, for the properties of [detect_silence] *)

(** [np.float32(t)]: a binary64 value rounded to binary32. *)
Definition round32 (t : spec_float) : spec_float :=
  match t with
  | S754_finite s m e =>
      binary_normalize prec32 emax32 (if s then Z.neg m else Z.pos m) e s
  | _ => t
  end.

(** A binary32 value as the binary64 of the same value. *)
Definition to64 (x : spec_float) : spec_float :=
  match x with
  | S754_finite s m e =>
      binary_normalize prec64 emax64 (if s then Z.neg m else Z.pos m) e s
  | _ => x
  end.

(** [x < t] for a float32 scalar [x] and a Python float [t].  Under the
    promotion rules of NumPy 2 the Python float is weak: it is rounded to
    float32 and two float32 values are compared.  Under the earlier
    rules both operands become float64. *)
Definition numpy_less (weak : bool) (x t : spec_float) : bool :=
  if weak then SFltb x (round32 t) else SFltb (to64 x) t.

(** The order in which a sum was associated: numpy adds a float array
    pairwise and in unrolled blocks, so the order is a tree over the
    elements and not the left-to-right one. *)
Inductive sum_tree : Type :=
| Leaf (x : spec_float)
| Node (l r : sum_tree).

Fixpoint leaves (t : sum_tree) : list spec_float :=
  match t with
  | Leaf x => [x]
  | Node l r => leaves l ++ leaves r
  end.

Fixpoint tree_sum (prec emax : Z) (t : sum_tree) : spec_float :=
  match t with
  | Leaf x => x
  | Node l r => SFadd prec emax (tree_sum prec emax l) (tree_sum prec emax r)
  end.


(** [np.mean] of a float32 array summed along [t]: numpy's [_mean] ends
    in [ret.dtype.type(ret / rcount)] with the float32 sum [ret] and the
    integer count [rcount], a float64 division rounded back to float32. *)
Definition tree_mean32 (t : sum_tree) : spec_float :=
  round32 (SFdiv prec64 emax64 (to64 (tree_sum prec32 emax32 t))
             (float_of_int (len (leaves t)))).

(** The same for a float64 array. *)
Definition tree_mean64 (t : sum_tree) : spec_float :=
  SFdiv prec64 emax64 (tree_sum prec64 emax64 t)
    (float_of_int (len (leaves t))).


(** ** A concrete environment

    An instance of every outside component, used to run the pipeline on
    concrete inputs: the [wave] codec and the decode library restricted
    to PCM files with the canonical 44-byte header, numpy's pairwise
    mean, and a transcription service that answers from a fixed table. *)

Module Demo.

(** A writer that checks its parameters as [wave.Wave_write] does and
    lays the frames out after the canonical header. *)
Definition canonical_write (nchannels sampwidth framerate : Z)
    (frames : bytes) : option bytes :=
  if (nchannels <? 1) || (sampwidth <? 1) || (4 <? sampwidth)
     || (framerate <=? 0)
  then None
  else
    chunk_size ← to_bytes (36 + len frames) 4;
    channels ← to_bytes nchannels 2;
    rate ← to_bytes framerate 4;
    byte_rate ← to_bytes (nchannels * framerate * sampwidth) 4;
    block_align ← to_bytes (nchannels * sampwidth) 2;
    bits ← to_bytes (sampwidth * 8) 2;
    data_size ← to_bytes (len frames) 4;
    Some (b_RIFF ++ chunk_size ++ b_WAVE ++ b_fmt_ ++ digits_le 4 16
            ++ digits_le 2 1 ++ channels ++ rate ++ byte_rate
            ++ block_align ++ bits ++ b_data ++ data_size ++ frames).

(** A reader for files with exactly that layout: a 16-byte format chunk
    with the PCM tag, directly followed by the data chunk. *)
Definition canonical_open (content : bytes) : option Wave_read :=
  if bytes_eqb (slice content 0 4) b_RIFF
     && bytes_eqb (slice content 8 12) b_WAVE
     && bytes_eqb (slice content 12 16) b_fmt_
     && (le_field content 16 4 =? 16)
     && (le_field content 20 2 =? 1)
     && bytes_eqb (slice content 36 40) b_data
  then
    let nchannels := le_field content 22 2 in
    let framerate := le_field content 24 4 in
    let sampwidth := le_field content 34 2 / 8 in
    let data := firstn (Z.to_nat (le_field content 40 4)) (skipn 44 content) in
    if (nchannels <? 1) || (sampwidth <? 1) then None
    else Some (mkWave nchannels sampwidth framerate
                 (len data / (nchannels * sampwidth)) data)
  else None.

(** Sample [i] of a PCM data chunk with [w] bytes per sample:
    little-endian two's complement, and unsigned around 128 for one
    byte. *)
Definition pcm_sample (w : nat) (data : bytes) (i : nat) : Z :=
  let u := le_field data (i * w) w in
  if (w =? 1)%nat then u - 128
  else if u <? 2 ^ (8 * Z.of_nat w - 1) then u
       else u - 2 ^ (8 * Z.of_nat w).

Definition pcm_samples (audio : Wave_read) : list Z :=
  map (pcm_sample (Z.to_nat (getsampwidth audio)) (data_chunk audio))
    (seq 0 (Z.to_nat (getnframes audio * getnchannels audio))).

(** [sf.read] on such a file: every sample of [w] bytes divided by
    [2^(8w-1)], which is exact in float64. *)
Definition pcm_read (content : bytes) : option (list spec_float) :=
  audio ← canonical_open content;
  let w := getsampwidth audio in
  if 4 <? w then None
  else Some (map (fun s => binary_normalize prec64 emax64 s (1 - 8 * w) false)
               (pcm_samples audio)).

(** C's [lrint] of [num / den] for [den > 0]: the nearest integer, ties
    to even. *)
Definition lrint (num den : Z) : Z :=
  let q := num / den in
  let r := num mod den in
  if 2 * r <? den then q
  else if den <? 2 * r then q + 1
  else if Z.even q then q else q + 1.

(** [sf.read] followed by [sf.write(..., format='WAV')]: the samples
    come back as 16-bit PCM under a fresh canonical header, each one
    [lrint(x * 32768)] kept to its two low bytes; chunks other than the
    format and the data are not kept. *)
Definition frames_reencode (content : bytes) : option bytes :=
  audio ← canonical_open content;
  let w := getsampwidth audio in
  if 4 <? w then None
  else
    canonical_write (getnchannels audio) 2 (getframerate audio)
      (concat (map (fun s => digits_le 2 (lrint (s * 32768) (2 ^ (8 * w - 1))))
                 (pcm_samples audio))).

(** numpy's pairwise sum (its [pairwise_sum] loop): fewer than eight
    elements are added left to right; up to 128 go through eight
    accumulators, element [i] to accumulator [i mod 8], which are then
    combined in pairs before the remainder is added; a longer array is
    halved at a multiple of eight.  The reduction starts from the
    identity 0, which changes no sum of squares and is left out. *)
Fixpoint comb (acc : sum_tree) (l : list spec_float) : sum_tree :=
  match l with
  | [] => acc
  | x :: l' => comb (Node acc (Leaf x)) l'
  end.

Fixpoint unrolled (fuel : nat) (accs : list sum_tree) (l : list spec_float)
  : list sum_tree * list spec_float :=
  match fuel with
  | O => (accs, l)
  | S fuel' =>
      if (8 <=? length l)%nat
      then unrolled fuel'
             (zip_with (fun a x => Node a (Leaf x)) accs (firstn 8 l))
             (skipn 8 l)
      else (accs, l)
  end.

Definition block_tree (l : list spec_float) : option sum_tree :=
  match unrolled (length l) (map Leaf (firstn 8 l)) (skipn 8 l) with
  | ([r0; r1; r2; r3; r4; r5; r6; r7], rest) =>
      Some (comb (Node (Node (Node r0 r1) (Node r2 r3))
                       (Node (Node r4 r5) (Node r6 r7))) rest)
  | _ => None
  end.

Fixpoint pairwise_tree (fuel : nat) (l : list spec_float) : option sum_tree :=
  let n := length l in
  if (n <? 8)%nat then
    match l with
    | [] => None
    | x :: l' => Some (comb (Leaf x) l')
    end
  else if (n <=? 128)%nat then block_tree l
  else
    match fuel with
    | O => None
    | S fuel' =>
        let n2 := (n / 2 - (n / 2) mod 8)%nat in
        l1 ← pairwise_tree fuel' (firstn n2 l);
        l2 ← pairwise_tree fuel' (skipn n2 l);
        Some (Node l1 l2)
    end.

Definition pairwise (l : list spec_float) : option sum_tree :=
  pairwise_tree (length l) l.

(** [np.mean] of a float32 array; the mean of an empty array is NaN. *)
Definition pairwise_mean32 (l : list spec_float) : spec_float :=
  match pairwise l with
  | Some t => tree_mean32 t
  | None => S754_nan
  end.

(** [np.mean] of a float64 array. *)
Definition pairwise_mean64 (l : list spec_float) : spec_float :=
  match pairwise l with
  | Some t => tree_mean64 t
  | None => S754_nan
  end.

(** The service answers the first POST with a padded transcript under
    ["transcript"], the second with a server error, the third with a
    nested result, and everything later with an empty object. *)
Definition table_post (n : nat) (filename : string) (content : bytes)
  : http_outcome :=
  match n with
  | 0%nat => HttpResponse 200
               (Some (JObj [(of_string "transcript",
                             JStr (of_string " namaste "))]))
  | 1%nat => HttpResponse 500 None
  | 2%nat => HttpResponse 200
               (Some (JObj [(of_string "result",
                             JObj [(of_string "text",
                                    JStr (of_string "loan"))])]))
  | _ => HttpResponse 200 (Some (JObj []))
  end.

(** [str(v)] for a decoded JSON value that is not a string, as Python
    prints it. *)

Fixpoint join_with (sep : str) (items : list str) : str :=
  match items with
  | [] => []
  | [x] => x
  | x :: rest => x ++ sep ++ join_with sep rest
  end.

Definition digits_of (n : Z) : str := of_string (pretty n).

Definition hex_digit (d : N) : N :=
  if (d <? 10)%N then (48 + d)%N else (87 + d)%N.

(** One character inside a quoted string: the quote and the backslash
    are escaped, tab, newline and return have their letters, the other
    control characters of Latin-1 print as [\xNN]; characters above
    Latin-1 are kept as they are. *)
Definition escaped (quote c : N) : str :=
  if (c =? 92)%N || (c =? quote)%N then [92%N; c]
  else if (c =? 9)%N then of_string "\t"
  else if (c =? 10)%N then of_string "\n"
  else if (c =? 13)%N then of_string "\r"
  else if (c <? 32)%N || ((127 <=? c)%N && (c <=? 160)%N) || (c =? 173)%N
       then [92%N; 120%N; hex_digit (c / 16); hex_digit (c mod 16)]
  else [c].

(** [repr] of a string: single quotes, unless it holds one and no double
    quote. *)
Definition quoted (s : str) : str :=
  let quote : N :=
    if bool_decide (39%N ∈ s) && negb (bool_decide (34%N ∈ s))
    then 34%N else 39%N in
  [quote] ++ concat (map (escaped quote) s) ++ [quote].

Definition same_float (a b : spec_float) : bool :=
  match a, b with
  | S754_zero s, S754_zero t => Bool.eqb s t
  | S754_infinity s, S754_infinity t => Bool.eqb s t
  | S754_nan, S754_nan => true
  | S754_finite s m e, S754_finite t n f =>
      Bool.eqb s t && (m =? n)%positive && (e =? f)
  | _, _ => false
  end.

(** The float nearest to [d * 10^q], for [d > 0]. *)
Definition float_of_decimal (d q : Z) : spec_float :=
  if 0 <=? q then float_of_int (d * 10 ^ q)
  else SFdiv prec64 emax64 (S754_finite false (Z.to_pos d) 0)
         (S754_finite false (Z.to_pos (10 ^ (- q))) 0).

(** The decimal exponent [p] of [num / den > 0]:
    [10^p <= num / den < 10^(p+1)]. *)
Fixpoint below_one (fuel : nat) (num den j : Z) : Z :=
  match fuel with
  | O => - j
  | S fuel' =>
      if den <=? num * 10 ^ j then - j
      else below_one fuel' num den (j + 1)
  end.

Definition decimal_exponent (num den : Z) : Z :=
  if den <=? num then Z.of_nat (String.length (pretty (num / den))) - 1
  else below_one 400 num den 1.

(** The shortest digits that read back as the same float, the nearer
    candidate first when two of that length do: the digits as an
    integer [d] and the exponent [q] of its last digit. *)
Fixpoint shortest_digits (fuel : nat) (x : spec_float) (num den p k : Z)
  : Z * Z :=
  let q := p - k + 1 in
  let '(n, d) := if q <? 0 then (num * 10 ^ (- q), den)
                 else (num, den * 10 ^ q) in
  let lo := n / d in
  let hi := lo + 1 in
  let same (c : Z) :=
    (0 <? c) && same_float (float_of_decimal c q) x in
  let lo_first := 2 * (n mod d) <=? d in
  match fuel with
  | O => (lo, q)
  | S fuel' =>
      if same lo && (lo_first || negb (same hi)) then (lo, q)
      else if same hi then (hi, q)
      else shortest_digits fuel' x num den p (k + 1)
  end.

Fixpoint strip_zeros (fuel : nat) (d q : Z) : Z * Z :=
  match fuel with
  | O => (d, q)
  | S fuel' =>
      if (d mod 10 =? 0) && negb (d =? 0) then strip_zeros fuel' (d / 10) (q + 1)
      else (d, q)
  end.

Definition zeros_str (n : Z) : str := repeat 48%N (Z.to_nat n).

(** [repr] of a float: the shortest digits; in exponent form when the
    decimal point would lie more than 16 places right of the first
    digit or more than 4 places left of it. *)
Definition float_repr (f : spec_float) : str :=
  match f with
  | S754_nan => of_string "nan"
  | S754_infinity s => of_string (if s then "-inf" else "inf")
  | S754_zero s => of_string (if s then "-0.0" else "0.0")
  | S754_finite s m e =>
      let '(num, den) :=
        if 0 <=? e then (Z.pos m * 2 ^ e, 1) else (Z.pos m, 2 ^ (- e)) in
      let p := decimal_exponent num den in
      let '(d0, q0) :=
        shortest_digits 17 (S754_finite false m e) num den p 1 in
      let '(d, q) := strip_zeros 20 d0 q0 in
      let ds := digits_of d in
      let decpt := len ds + q in
      let body :=
        if (decpt <=? -4) || (16 <? decpt) then
          let x := decpt - 1 in
          firstn 1 ds
            ++ (if 1 <? len ds then of_string "." ++ skipn 1 ds else [])
            ++ of_string (if x <? 0 then "e-" else "e+")
            ++ (if Z.abs x <? 10 then of_string "0" else [])
            ++ digits_of (Z.abs x)
        else if decpt <=? 0 then
          of_string "0." ++ zeros_str (- decpt) ++ ds
        else if len ds <=? decpt then
          ds ++ zeros_str (decpt - len ds) ++ of_string ".0"
        else
          firstn (Z.to_nat decpt) ds ++ of_string "."
            ++ skipn (Z.to_nat decpt) ds in
      (if s then of_string "-" else []) ++ body
  end.

Fixpoint str_of_json (v : json) : str :=
  match v with
  | JNull => of_string "None"
  | JBool b => of_string (if b then "True" else "False")
  | JNum n => digits_of n
  | JFloat f => float_repr f
  | JStr s => quoted s
  | JArr items =>
      of_string "[" ++ join_with (of_string ", ") (map str_of_json items)
        ++ of_string "]"
  | JObj fields =>
      of_string "{"
        ++ join_with (of_string ", ")
             (map (fun kv => quoted (fst kv) ++ of_string ": "
                             ++ str_of_json (snd kv)) fields)
        ++ of_string "}"
  end.

Definition env_fallback : Env := {|
  SOUNDFILE_AVAILABLE := false;
  sf_reencode := fun _ => None;
  sf_read := fun _ => None;
  np_mean64 := pairwise_mean64;
  np_mean := pairwise_mean32;
  np_less := numpy_less true;
  wave_open_rb := canonical_open;
  wave_write := canonical_write;
  api_utils_importable := true;
  SARVAM_API_KEY := Some (of_string "key");
  stt_post := table_post;
  py_repr := str_of_json
|}.

(** The same with the decode library present. *)
Definition env_soundfile : Env := {|
  SOUNDFILE_AVAILABLE := true;
  sf_reencode := frames_reencode;
  sf_read := pcm_read;
  np_mean64 := pairwise_mean64;
  np_mean := pairwise_mean32;
  np_less := numpy_less true;
  wave_open_rb := canonical_open;
  wave_write := canonical_write;
  api_utils_importable := true;
  SARVAM_API_KEY := Some (of_string "key");
  stt_post := table_post;
  py_repr := str_of_json
|}.

Definition empty_world : World := mkWorld ∅ [].

Definition zeros (n : Z) : bytes := repeat x00 (Z.to_nat n).

(** A mono 16-bit recording of [nframes] silent frames at [framerate]. *)
Definition recording (framerate nframes : Z) : bytes :=
  default [] (canonical_write 1 2 framerate (zeros (2 * nframes))).

(** [n] 16-bit samples of one value, and a mono recording of them. *)
Definition constant_buffer (sample n : Z) : bytes :=
  concat (repeat (digits_le 2 sample) (Z.to_nat n)).


Definition world_with (path : string) (content : bytes) : World :=
  mkWorld {[ path := content ]} [].

Definition b_LIST : bytes := [x4c; x49; x53; x54].
Definition b_INFO : bytes := [x49; x4e; x46; x4f].

(** A well-formed mono 16-bit WAV file of 112 bytes: 28 silent frames at
    44100 Hz, followed by a LIST chunk that holds the four bytes "INFO". *)
Definition tagged_wav : bytes :=
  b_RIFF ++ digits_le 4 104 ++ b_WAVE ++ b_fmt_ ++ digits_le 4 16
    ++ digits_le 2 1 ++ digits_le 2 1 ++ digits_le 4 44100
    ++ digits_le 4 88200 ++ digits_le 2 2 ++ digits_le 2 16
    ++ b_data ++ digits_le 4 56 ++ zeros 56
    ++ b_LIST ++ digits_le 4 4 ++ b_INFO.

(** The Python float [0.1]. *)
Definition threshold_default : spec_float :=
  S754_finite false 7205759403792794 (-56).

(** The Python float [2.0 ** -153], positive and below half the least
    positive float32. *)
Definition threshold_tiny : spec_float :=
  S754_finite false 4503599627370496 (-205).

End Demo.

(** ** Vocabulary for the properties of [audio_to_text] *)

(** HTTP requests recorded in a trace. *)
Definition posts_in (tr : list event) : nat :=
  length (filter (fun e => is_post e = true) tr).

(** What [audio_to_text] makes of the service's answer (lines 79-87):
    the extracted transcript of a 200 response with a JSON body, and the
    empty string in every other case. *)
Definition transcript_of_outcome (env : Env) (outcome : http_outcome) : str :=
  match outcome with
  | HttpResponse status_code (Some payload) =>
      if status_code =? 200 then
        match _extract_transcript_from_response env payload with
        | Ok s => s
        | Raise _ => []
        end
      else []
  | _ => []
  end.

(** The string bound to [key] in a decoded object, if there is one. *)
Definition str_field (d : list (str * json)) (key : string) : option str :=
  match dict_get d (of_string key) with
  | Some (JStr s) => Some s
  | _ => None
  end.

(** ** Vocabulary for the properties of the chunker *)

(** The rounds of the chunker's loop for a duration and a stride: the
    least integer not below their quotient, taken on the exact value of
    the float. *)
Definition round_count (total_duration : spec_float) (chunk_length : Z) : Z :=
  match float_frac total_duration with
  | Some (num, den) => Z.max 0 (- ((- num) / (den * chunk_length)))
  | None => 0
  end.

(** A reader over a complete file: positive channel count, sample width
    and frame rate, and a data chunk that holds every frame the header
    announces. *)
Definition complete (audio : Wave_read) : Prop :=
  0 < getnchannels audio /\ 0 < getsampwidth audio
  /\ 0 < getframerate audio
  /\ len (data_chunk audio)
     = getnframes audio * (getnchannels audio * getsampwidth audio).

(** ** [split_text] (text_utils.py, lines 7-38) *)

(** [s.split()]: the maximal runs of characters that are not whitespace,
    in order.  [cur] is the run being read. *)
Fixpoint py_split_from (s cur : str) : list str :=
  match s with
  | [] => if truthy cur then [cur] else []
  | c :: s' =>
      if isspace c
      then (if truthy cur then cur :: py_split_from s' [] else py_split_from s' [])
      else py_split_from s' (cur ++ [c])
  end.

Definition py_split (s : str) : list str := py_split_from s [].

(** One round of the loop over the words: the state is the list of
    finished chunks and the chunk being filled. *)
Definition split_text_step (max_length : Z) (state : list str * str)
    (word : str) : list str * str :=
  let '(chunks, current_chunk) := state in
  if len current_chunk + len word + 1 <=? max_length
  then (chunks,
        current_chunk
        ++ (if truthy current_chunk then [space] ++ word else word))
  else ((if truthy current_chunk
         then chunks ++ [strip current_chunk]
         else chunks),
        word).

Definition split_text (text : str) (max_length : Z) : list str :=
  if negb (truthy text) || negb (truthy (strip text)) then []
  else
    let words := py_split text in
    let '(chunks, current_chunk) :=
      fold_left (split_text_step max_length) words ([], []) in
    if truthy current_chunk
    then chunks ++ [strip current_chunk]
    else chunks.

(** [" ".join(words)]. *)
Fixpoint join_words (words : list str) : str :=
  match words with
  | [] => []
  | [w] => w
  | w :: rest => w ++ [space] ++ join_words rest
  end.

(** A word: non-empty and free of whitespace. *)
Definition is_word (w : str) : Prop :=
  w <> [] /\ Forall (fun c => isspace c = false) w.

(** The state of [split_text]'s loop after the words [processed]: the
    finished chunks and the current one are the words so far, cut into
    consecutive groups and joined by single spaces; a group of several
    words fits in [max_length]. *)
Definition chunked (max_length : Z) (processed : list str)
    (state : list str * str) : Prop :=
  exists (groups : list (list str)) (current : list str),
    fst state = map join_words groups
    /\ snd state = join_words current
    /\ concat groups ++ current = processed
    /\ Forall (fun g => g <> []) groups
    /\ Forall (fun g => len (join_words g) <= max_length \/ exists w, g = [w])
         groups
    /\ (len (join_words current) <= max_length \/ (length current <= 1)%nat).

(** ** [_normalize_language_code] (api_utils.py, lines 26-37, 151-158) *)

(** A [dict] with [str] keys and values, as the list of its items. *)
Definition str_dict (items : list (string * string)) : list (str * str) :=
  map (fun kv => (of_string (fst kv), of_string (snd kv))) items.

(** [d.get(key)]. *)
Fixpoint str_dict_get (d : list (str * str)) (key : str) : option str :=
  match d with
  | [] => None
  | (k, v) :: rest =>
      if bool_decide (k = key) then Some v else str_dict_get rest key
  end.

Definition LANG_CODE_MAP : list (str * str) :=
  str_dict [("hi", "hi-IN"); ("bn", "bn-IN"); ("ta", "ta-IN"); ("te", "te-IN");
            ("mr", "mr-IN"); ("kn", "kn-IN"); ("gu", "gu-IN"); ("ml", "ml-IN");
            ("pa", "pa-IN"); ("ur", "ur-IN"); ("en", "en-IN")].

Definition SPEAKER_MAP : list (str * str) :=
  str_dict [("hi-IN", "meera"); ("en-IN", "meera"); ("bn-IN", "kabita");
            ("ta-IN", "oviya"); ("te-IN", "kareena"); ("mr-IN", "sarika");
            ("kn-IN", "diya"); ("gu-IN", "kajal"); ("ml-IN", "asha");
            ("pa-IN", "monica"); ("ur-IN", "ayesha")].

Definition _normalize_language_code (target_language : str) : str :=
  let lang_key := target_language in
  let lang_key :=
    if len lang_key =? 2
    then default (of_string "en-IN") (str_dict_get LANG_CODE_MAP lang_key)
    else lang_key in
  if bool_decide (is_Some (str_dict_get SPEAKER_MAP lang_key))
  then lang_key
  else of_string "en-IN".

(** Lines 126-127 of [text_to_speech]: the voice for a target language. *)
Definition tts_speaker (target_language : str) : str :=
  default (of_string "meera")
    (str_dict_get SPEAKER_MAP (_normalize_language_code target_language)).

(** ** The merger: [merge_audio] (audio_utils.py, lines 306-368) *)

Section Merger.

Context (env : Env).

(** [_merge_with_soundfile], the branch taken when the decode library is
    present; its reads, concatenation and write belong to that library. *)
Variable _merge_with_soundfile : list string -> string -> M unit.

(** [wave.open(path, 'rb')] on a path. *)
Definition open_wave (path : string) : M Wave_read :=
  content <~ read_file path ;;
  match wave_open_rb env content with
  | Some audio => ret audio
  | None => raise WaveError
  end.

(** [output_audio.writeframes(frames)]: the header is brought up to date
    with every call, so the file on disk is the writer's output for all
    the frames written so far. *)
Definition writeframes (output_filename : string)
    (nchannels sampwidth framerate : Z) (written : bytes) : M unit :=
  match wave_write env nchannels sampwidth framerate written with
  | Some content => write_file output_filename content
  | None => raise WaveError
  end.

(** Lines 363-368: every file that exists is opened and all its frames
    are appended; [written] is what the output holds so far. *)
Fixpoint merge_loop (output_filename : string)
    (nchannels sampwidth framerate : Z) (audio_files : list string)
    (written : bytes) : M unit :=
  match audio_files with
  | [] => ret tt
  | file_path :: rest =>
      present <~ os_path_exists file_path ;;
      if present then
        audio_chunk <~ open_wave file_path ;;
        let written' :=
          written ++ readframes audio_chunk 0 (getnframes audio_chunk) in
        writeframes output_filename nchannels sampwidth framerate written' ;;;
        merge_loop output_filename nchannels sampwidth framerate rest written'
      else
        merge_loop output_filename nchannels sampwidth framerate rest written
  end.

(** Opening the output creates it empty; when the first input cannot be
    opened the writer is closed without parameters and the output stays
    empty.  Once the parameters are set the closed writer leaves at
    least its header.  On an empty list [audio_files[0]] raises. *)
Definition _merge_with_wave (audio_files : list string)
    (output_filename : string) : M unit :=
  write_file output_filename [] ;;;
  match audio_files with
  | [] => raise KeyError
  | first :: _ =>
      first_file <~ open_wave first ;;
      let nchannels := getnchannels first_file in
      let sampwidth := getsampwidth first_file in
      let framerate := getframerate first_file in
      writeframes output_filename nchannels sampwidth framerate [] ;;;
      merge_loop output_filename nchannels sampwidth framerate audio_files []
  end.

Fixpoint cleanup_all (audio_files : list string) : M unit :=
  match audio_files with
  | [] => ret tt
  | file_path :: rest => _cleanup_temp_file file_path ;;; cleanup_all rest
  end.

Definition merge_audio (audio_files : list string) (output_filename : string)
  : M unit :=
  match audio_files with
  | [] => ret tt
  | _ :: _ =>
      try_except
        ((if SOUNDFILE_AVAILABLE env
          then _merge_with_soundfile audio_files output_filename
          else _merge_with_wave audio_files output_filename) ;;;
         cleanup_all audio_files)
        (fun _ => ret tt)
  end.

(** The frames of the files that exist, in order, as the loop reads them
    from a file system; [None] when one of them cannot be opened. *)
Fixpoint frames_of_files (files : gmap string bytes)
    (audio_files : list string) : option bytes :=
  match audio_files with
  | [] => Some []
  | file_path :: rest =>
      match files !! file_path with
      | None => frames_of_files files rest
      | Some content =>
          audio ← wave_open_rb env content;
          frames ← frames_of_files files rest;
          Some (readframes audio 0 (getnframes audio) ++ frames)
      end
  end.

End Merger.

(** ** The voice path of the chat page: [_process_audio_to_text]
       (chat.py, lines 421-457) *)

Section ChatPage.

Context (env : Env).

Definition recorded_audio : string := "recorded_audio.wav".

(** The [finally] block: the saved recording is removed if it exists and
    whatever that raises is dropped. *)
Definition remove_saved (save_path : string) : M unit :=
  try_except
    (present <~ os_path_exists save_path ;;
     if present then os_remove save_path else ret tt)
    (fun _ => ret tt).

(** The recording is saved with the file system's [write_file], which
    accepts every write.  An [OSError] from [open] or [f.write] is
    outside this model: the [try] has no [except], so it would run the
    [finally] block and go on to the caller. *)
Definition _process_audio_to_text (audio_bytes : bytes) : M (option str) :=
  wav_audio <~ convert_webm_to_wav env audio_bytes ;;
  if negb (truthy_bytes wav_audio) then ret None
  else
    let save_path := recorded_audio in
    try_finally
      (write_file save_path (default [] wav_audio) ;;;
       present <~ os_path_exists save_path ;;
       size <~ (if present then os_path_getsize save_path else ret 0) ;;
       if negb (present && (1000 <? size)) then ret None
       else
         transcript <~ process_long_audio env save_path ;;
         if negb (truthy transcript) || (len (strip transcript) <? 2)
         then ret None
         else ret (Some transcript))
      (remove_saved save_path).

End ChatPage.

(** Unfolds the monad's combinators and the file-system primitives. *)
Ltac unfold_monad :=
  unfold bind, ret, raise, lift, try_except, try_finally, log_event,
    os_path_exists, os_path_getsize, os_remove, read_file, write_file in *.


(** * Properties *)

(** ** Facts about [to_bytes] *)

Lemma Z_of_byte_of_Z (z : Z) :
  0 <= z < 256 -> Z_of_byte (byte_of_Z z) = z.
Proof.
  intros Hz. unfold Z_of_byte, byte_of_Z.
  destruct (Byte.of_N (Z.to_N z)) as [b|] eqn:E.
  - apply Byte.to_of_N in E. rewrite E. lia.
  - apply Byte.of_N_None_iff in E. lia.
Qed.

Lemma length_digits_le (k : nat) (n : Z) : length (digits_le k n) = k.
Proof.
  revert n. induction k as [|k IH]; intros n; simpl; [done|]. by rewrite IH.
Qed.

Lemma from_bytes_digits_le (k : nat) (n : Z) :
  0 <= n < 256 ^ Z.of_nat k -> from_bytes (digits_le k n) = n.
Proof.
  revert n. induction k as [|k IH]; intros n Hn.
  - simpl in *. lia.
  - cbn [digits_le from_bytes fold_right].
    fold (from_bytes (digits_le k (n / 256))).
    rewrite Z_of_byte_of_Z by (apply Z.mod_pos_bound; lia).
    rewrite IH.
    + pose proof (Z.div_mod n 256). lia.
    + rewrite Nat2Z.inj_succ, Z.pow_succ_r in Hn by lia.
      split; [apply Z.div_pos; lia|].
      apply Z.div_lt_upper_bound; lia.
Qed.

Lemma to_bytes_Some (n : Z) (k : nat) :
  0 <= n < 256 ^ Z.of_nat k -> to_bytes n k = Some (digits_le k n).
Proof.
  intros [H0 H1]. unfold to_bytes.
  apply Z.leb_le in H0. apply Z.ltb_lt in H1. by rewrite H0, H1.
Qed.

Lemma to_bytes_overflow (n : Z) (k : nat) :
  256 ^ Z.of_nat k <= n -> to_bytes n k = None.
Proof.
  intros H. unfold to_bytes.
  replace (n <? 256 ^ Z.of_nat k) with false by (symmetry; apply Z.ltb_ge; lia).
  by rewrite andb_false_r.
Qed.

Lemma len_nonneg {A} (l : list A) : 0 <= len l.
Proof. unfold len. lia. Qed.

Lemma len_zeros (n : Z) : 0 <= n -> len (Demo.zeros n) = n.
Proof. intros Hn. unfold len, Demo.zeros. rewrite repeat_length. lia. Qed.

(** ** The header builder *)

Lemma wav_header_Some (n : Z) :
  0 <= n -> 36 + n < 2 ^ 32 -> wav_header n = Some (header_of n).
Proof.
  intros H0 H1. unfold wav_header.
  rewrite (to_bytes_Some (36 + n) 4) by (change (256 ^ Z.of_nat 4) with (2 ^ 32); lia).
  rewrite (to_bytes_Some n 4) by (change (256 ^ Z.of_nat 4) with (2 ^ 32); lia).
  reflexivity.
Qed.

Lemma wav_header_overflow (n : Z) :
  2 ^ 32 <= 36 + n -> wav_header n = None.
Proof.
  intros H. unfold wav_header.
  rewrite (to_bytes_overflow (36 + n) 4) by (change (256 ^ Z.of_nat 4) with (2 ^ 32); lia).
  reflexivity.
Qed.

Lemma header_of_fields (n : Z) :
  0 <= n -> 36 + n < 2 ^ 32 ->
  length (header_of n) = 44%nat
  /\ slice (header_of n) 0 4 = b_RIFF
  /\ le_field (header_of n) 4 4 = 36 + n
  /\ slice (header_of n) 8 12 = b_WAVE
  /\ slice (header_of n) 12 16 = b_fmt_
  /\ le_field (header_of n) 16 4 = 16
  /\ le_field (header_of n) 20 2 = 1
  /\ le_field (header_of n) 22 2 = num_channels
  /\ le_field (header_of n) 24 4 = sample_rate
  /\ le_field (header_of n) 28 4 = sample_rate * num_channels * bits_per_sample / 8
  /\ le_field (header_of n) 32 2 = num_channels * bits_per_sample / 8
  /\ le_field (header_of n) 34 2 = bits_per_sample
  /\ slice (header_of n) 36 40 = b_data
  /\ le_field (header_of n) 40 4 = n.
Proof.
  intros H0 H1.
  assert (E1 : from_bytes (digits_le 4 (36 + n)) = 36 + n)
    by (apply from_bytes_digits_le; change (256 ^ Z.of_nat 4) with (2 ^ 32); lia).
  assert (E2 : from_bytes (digits_le 4 n) = n)
    by (apply from_bytes_digits_le; change (256 ^ Z.of_nat 4) with (2 ^ 32); lia).
  repeat split; try reflexivity.
  - unfold le_field, header_of. exact E1.
  - unfold le_field, header_of. exact E2.
Qed.

(** C2 (amended): for every payload whose length [n] satisfies
    [36 + n < 2^32], [create_basic_wav] returns a 44-byte header followed
    by the payload; the header's RIFF chunk size field is [36 + n], its
    data sub-chunk size field is [n], its byte-rate field is
    [sampleRate * channels * bitsPerSample / 8], its block-align field is
    [channels * bitsPerSample / 8], and every multi-byte field is
    little-endian. *)
Theorem create_basic_wav_header (audio_data : bytes) :
  36 + len audio_data < 2 ^ 32 ->
  exists header : bytes,
    create_basic_wav audio_data = Some (header ++ audio_data)
    /\ length header = 44%nat
    /\ slice header 0 4 = b_RIFF
    /\ le_field header 4 4 = 36 + len audio_data
    /\ slice header 8 12 = b_WAVE
    /\ slice header 12 16 = b_fmt_
    /\ le_field header 16 4 = 16
    /\ le_field header 20 2 = 1
    /\ le_field header 22 2 = num_channels
    /\ le_field header 24 4 = sample_rate
    /\ le_field header 28 4 = sample_rate * num_channels * bits_per_sample / 8
    /\ le_field header 32 2 = num_channels * bits_per_sample / 8
    /\ le_field header 34 2 = bits_per_sample
    /\ slice header 36 40 = b_data
    /\ le_field header 40 4 = len audio_data.
Proof.
  intros Hfit. pose proof (len_nonneg audio_data) as Hlen.
  exists (header_of (len audio_data)). split.
  - unfold create_basic_wav. by rewrite wav_header_Some.
  - by apply header_of_fields.
Qed.

Lemma create_basic_wav_header_witness :
  exists header : bytes,
    create_basic_wav [x01; x02] = Some (header ++ [x01; x02])
    /\ length header = 44%nat
    /\ le_field header 4 4 = 38
    /\ le_field header 40 4 = 2.
Proof.
  destruct (create_basic_wav_header [x01; x02]) as (header & H1 & H2 & _ & H4 & H'); [reflexivity|].
  exists header. repeat split; try assumption.
  apply H'.
Defined.

(** Beyond the 32-bit size field nothing is built. *)
Lemma create_basic_wav_overflow (audio_data : bytes) :
  2 ^ 32 <= 36 + len audio_data -> create_basic_wav audio_data = None.
Proof.
  intros H. unfold create_basic_wav. by rewrite wav_header_overflow.
Qed.

(** C2 as stated fails: a one-byte payload gives 45 bytes of output, not
    44, and a payload of [2^32 - 36] bytes gives no output at all. *)
Lemma create_basic_wav_not_always_44 :
  (exists out, create_basic_wav [x00] = Some out /\ length out = 45%nat)
  /\ create_basic_wav (Demo.zeros 4294967260) = None.
Proof.
  split.
  - eexists. split; reflexivity.
  - apply create_basic_wav_overflow. rewrite len_zeros; lia.
Qed.

(** What the builder returns is never the empty byte string. *)
Lemma create_basic_wav_truthy (audio_data : bytes) :
  truthy_bytes (create_basic_wav audio_data)
  = bool_decide (is_Some (create_basic_wav audio_data)).
Proof.
  destruct (Z.lt_ge_cases (36 + len audio_data) (2 ^ 32)) as [H|H].
  - unfold create_basic_wav.
    rewrite wav_header_Some by (pose proof (len_nonneg audio_data); lia).
    rewrite bool_decide_eq_true_2 by eauto. reflexivity.
  - rewrite create_basic_wav_overflow by lia. reflexivity.
Qed.

(** ** The format normaliser *)

Lemma cleanup_present (p : string) (w : World) (content : bytes) :
  fs w !! p = Some content ->
  _cleanup_temp_file p w = (Ok tt, mkWorld (delete p (fs w)) (trace w)).
Proof.
  intros H. unfold _cleanup_temp_file. unfold_monad. rewrite H.
  rewrite bool_decide_eq_true_2 by eauto. by rewrite H.
Qed.

Lemma cleanup_absent (p : string) (w : World) :
  fs w !! p = None -> _cleanup_temp_file p w = (Ok tt, w).
Proof.
  intros H. unfold _cleanup_temp_file. unfold_monad. rewrite H.
  rewrite bool_decide_eq_false_2; [done|]. by intros [x Hx].
Qed.

(** [_cleanup_temp_file] never raises and leaves the path absent. *)
Lemma cleanup_total (p : string) (w : World) :
  exists w', _cleanup_temp_file p w = (Ok tt, w')
             /\ fs w' = delete p (fs w) /\ trace w' = trace w.
Proof.
  destruct (fs w !! p) as [c|] eqn:E.
  - eexists. split; [by eapply cleanup_present|]. done.
  - eexists. split; [by apply cleanup_absent|].
    split; [|done]. symmetry. by apply delete_id.
Qed.

Lemma try_soundfile_conversion_eq (env : Env) (p : string) (b : bytes) (w : World) :
  fs w !! p = Some b ->
  _try_soundfile_conversion env p w = (Ok (library_decode env b), w).
Proof.
  intros H. unfold _try_soundfile_conversion, library_decode.
  destruct (SOUNDFILE_AVAILABLE env); simpl; [|done].
  unfold_monad. rewrite H. by destruct (sf_reencode env b).
Qed.

(** Every input of at least 100 bytes runs the whole chain, and the
    scratch file is gone afterwards. *)
Lemma convert_webm_to_wav_chain (env : Env) (audio_bytes : bytes) (w : World) :
  100 <= len audio_bytes ->
  convert_webm_to_wav env audio_bytes w
  = (Ok (strategy_chain env audio_bytes),
     mkWorld (delete temp_audio_input (fs w)) (trace w)).
Proof.
  intros Hlen. unfold convert_webm_to_wav.
  replace (len audio_bytes =? 0) with false by (symmetry; apply Z.eqb_neq; lia).
  replace (len audio_bytes <? 100) with false by (symmetry; apply Z.ltb_ge; lia).
  unfold try_finally, try_except, bind at 1, write_file at 1.
  unfold bind at 1.
  rewrite (try_soundfile_conversion_eq env temp_audio_input audio_bytes)
    by (simpl; apply lookup_insert_eq).
  set (w1 := mkWorld _ _).
  assert (Hc : _cleanup_temp_file temp_audio_input w1
               = (Ok tt, mkWorld (delete temp_audio_input (fs w)) (trace w))).
  { erewrite cleanup_present by (subst w1; simpl; apply lookup_insert_eq).
    subst w1; simpl. by rewrite delete_insert_eq. }
  unfold strategy_chain, first_truthy.
  destruct (truthy_bytes (library_decode env audio_bytes)) eqn:E1;
    [|destruct (truthy_bytes (_check_existing_wav_format audio_bytes)) eqn:E2;
      [|destruct (truthy_bytes (_create_basic_wav_fallback audio_bytes)) eqn:E3]];
    repeat first [rewrite E1 | rewrite E2 | rewrite E3];
    unfold ret; by rewrite Hc.
Qed.

(** Shorter inputs are turned away before anything is written. *)
Lemma convert_webm_to_wav_small (env : Env) (audio_bytes : bytes) (w : World) :
  len audio_bytes < 100 ->
  convert_webm_to_wav env audio_bytes w = (Ok None, w).
Proof.
  intros Hlen. unfold convert_webm_to_wav.
  destruct (len audio_bytes =? 0); [done|].
  by replace (len audio_bytes <? 100) with true by (symmetry; apply Z.ltb_lt; lia).
Qed.

Lemma truthy_bytes_Some (b : bytes) :
  0 < len b -> truthy_bytes (Some b) = true.
Proof. destruct b; [unfold len; simpl; lia | done]. Qed.

Lemma check_existing_wav_format_Some (audio_bytes : bytes) :
  slice audio_bytes 0 4 = b_RIFF -> slice audio_bytes 8 12 = b_WAVE ->
  _check_existing_wav_format audio_bytes = Some audio_bytes.
Proof.
  intros H1 H2. unfold _check_existing_wav_format, bytes_eqb.
  by rewrite !bool_decide_eq_true_2.
Qed.

Lemma check_existing_wav_format_None (audio_bytes : bytes) :
  ~ (slice audio_bytes 0 4 = b_RIFF /\ slice audio_bytes 8 12 = b_WAVE) ->
  _check_existing_wav_format audio_bytes = None.
Proof.
  intros H. unfold _check_existing_wav_format, bytes_eqb.
  destruct (bool_decide (slice audio_bytes 0 4 = b_RIFF)) eqn:E1; [|done].
  destruct (bool_decide (slice audio_bytes 8 12 = b_WAVE)) eqn:E2; [|done].
  apply bool_decide_eq_true_1 in E1. apply bool_decide_eq_true_1 in E2.
  by destruct H.
Qed.

(** When the library decodes the input, its re-encoding is what comes
    back, whatever the input's first bytes are. *)
Lemma convert_library_first (env : Env) (audio_bytes : bytes) (w : World) :
  100 <= len audio_bytes ->
  truthy_bytes (library_decode env audio_bytes) = true ->
  fst (convert_webm_to_wav env audio_bytes w) = Ok (library_decode env audio_bytes).
Proof.
  intros Hlen Hlib. rewrite convert_webm_to_wav_chain by done.
  unfold strategy_chain, first_truthy. by rewrite Hlib.
Qed.

(** C3 (amended): for every input of at least 100 bytes that starts with
    "RIFF" and has "WAVE" at offsets 8..11, when the library decode
    strategy yields no output (library absent, decoding fails or gives
    nothing), [convert_webm_to_wav] returns the input itself, byte for
    byte; the passthrough is chosen over the fallback synthesis and the
    scratch file is removed. *)
Theorem convert_passthrough (env : Env) (audio_bytes : bytes) (w : World) :
  100 <= len audio_bytes ->
  slice audio_bytes 0 4 = b_RIFF ->
  slice audio_bytes 8 12 = b_WAVE ->
  truthy_bytes (library_decode env audio_bytes) = false ->
  convert_webm_to_wav env audio_bytes w
  = (Ok (Some audio_bytes), mkWorld (delete temp_audio_input (fs w)) (trace w)).
Proof.
  intros Hlen H1 H2 Hlib. rewrite convert_webm_to_wav_chain by done.
  unfold strategy_chain, first_truthy. rewrite Hlib.
  rewrite check_existing_wav_format_Some by done.
  by rewrite truthy_bytes_Some by lia.
Qed.

Lemma convert_passthrough_witness :
  100 <= len Demo.tagged_wav
  /\ convert_webm_to_wav Demo.env_fallback Demo.tagged_wav Demo.empty_world
     = (Ok (Some Demo.tagged_wav),
        mkWorld (delete temp_audio_input (fs Demo.empty_world))
                (trace Demo.empty_world)).
Proof.
  split; [vm_compute; discriminate|].
  apply (convert_passthrough Demo.env_fallback Demo.tagged_wav Demo.empty_world).
  - vm_compute; discriminate.
  - reflexivity.
  - reflexivity.
  - reflexivity.
Defined.

(** C3 as stated fails: with the decode library present, a 112-byte WAV
    file carrying both magic strings and a trailing LIST chunk comes back
    re-encoded in 100 bytes, not unchanged. *)
Lemma convert_passthrough_not_unconditional :
  100 <= len Demo.tagged_wav
  /\ slice Demo.tagged_wav 0 4 = b_RIFF
  /\ slice Demo.tagged_wav 8 12 = b_WAVE
  /\ exists out,
       fst (convert_webm_to_wav Demo.env_soundfile Demo.tagged_wav
              Demo.empty_world) = Ok (Some out)
       /\ length out = 100%nat
       /\ length Demo.tagged_wav = 112%nat
       /\ out <> Demo.tagged_wav.
Proof.
  split; [vm_compute; discriminate|].
  split; [reflexivity|]. split; [reflexivity|].
  eexists. split; [vm_compute; reflexivity|].
  split; [reflexivity|]. split; [reflexivity|].
  intros H. apply (f_equal (@length byte)) in H.
  vm_compute in H. discriminate.
Qed.

(** C10: without the decode library and without the RIFF/WAVE signature,
    [convert_webm_to_wav] returns nothing for every input of at most
    1000 bytes (below 100 bytes the world is not touched at all), and
    from 1001 bytes on it returns what [create_basic_wav] builds, which
    at exactly 1001 bytes is a 44-byte header followed by the input. *)
Theorem convert_fallback_boundary (env : Env) (audio_bytes : bytes) (w : World) :
  SOUNDFILE_AVAILABLE env = false ->
  ~ (slice audio_bytes 0 4 = b_RIFF /\ slice audio_bytes 8 12 = b_WAVE) ->
  (len audio_bytes < 100 ->
     convert_webm_to_wav env audio_bytes w = (Ok None, w))
  /\ (len audio_bytes <= 1000 ->
        fst (convert_webm_to_wav env audio_bytes w) = Ok None)
  /\ (1000 < len audio_bytes ->
        fst (convert_webm_to_wav env audio_bytes w)
        = Ok (create_basic_wav audio_bytes))
  /\ (len audio_bytes = 1001 ->
        exists header,
          length header = 44%nat
          /\ fst (convert_webm_to_wav env audio_bytes w)
             = Ok (Some (header ++ audio_bytes))).
Proof.
  intros Hsf Hmagic.
  assert (Hchain : 100 <= len audio_bytes ->
            fst (convert_webm_to_wav env audio_bytes w)
            = Ok (first_truthy [_create_basic_wav_fallback audio_bytes])).
  { intros Hlen. rewrite convert_webm_to_wav_chain by done.
    unfold strategy_chain, library_decode. rewrite Hsf.
    by rewrite check_existing_wav_format_None. }
  assert (Hbig : 1000 < len audio_bytes ->
            fst (convert_webm_to_wav env audio_bytes w)
            = Ok (create_basic_wav audio_bytes)).
  { intros Hlen. rewrite Hchain by lia.
    unfold _create_basic_wav_fallback, first_truthy.
    replace (len audio_bytes <=? 1000) with false by (symmetry; apply Z.leb_gt; lia).
    pose proof (create_basic_wav_truthy audio_bytes) as Ht.
    destruct (create_basic_wav audio_bytes) as [out|]; [|done].
    by rewrite Ht. }
  repeat split.
  - intros Hlen. by apply convert_webm_to_wav_small.
  - intros Hlen. destruct (Z.lt_ge_cases (len audio_bytes) 100) as [Hs|Hs].
    + by rewrite convert_webm_to_wav_small.
    + rewrite Hchain by done. unfold _create_basic_wav_fallback.
      by replace (len audio_bytes <=? 1000) with true by (symmetry; apply Z.leb_le; lia).
  - exact Hbig.
  - intros Hlen.
    exists (header_of (len audio_bytes)). split; [by apply header_of_fields; lia|].
    rewrite Hbig by lia. unfold create_basic_wav.
    by rewrite wav_header_Some by lia.
Qed.

Lemma convert_fallback_boundary_witness :
  fst (convert_webm_to_wav Demo.env_fallback (Demo.zeros 1000) Demo.empty_world)
  = Ok None
  /\ exists header,
       length header = 44%nat
       /\ fst (convert_webm_to_wav Demo.env_fallback (Demo.zeros 1001)
                 Demo.empty_world)
          = Ok (Some (header ++ Demo.zeros 1001)).
Proof.
  split.
  - apply (convert_fallback_boundary Demo.env_fallback (Demo.zeros 1000)
             Demo.empty_world); [reflexivity | | vm_compute; discriminate].
    intros [H _]. vm_compute in H. discriminate.
  - apply (convert_fallback_boundary Demo.env_fallback (Demo.zeros 1001)
             Demo.empty_world); [reflexivity | | vm_compute; reflexivity].
    intros [H _]. vm_compute in H. discriminate.
Defined.

(** ** The silence detector *)

Lemma list_pair_ind {A} (P : list A -> Prop) :
  P [] -> (forall x, P [x]) -> (forall x y l, P l -> P (x :: y :: l)) ->
  forall l, P l.
Proof.
  intros H0 H1 H2. fix IH 1. intros [|x [|y l]].
  - exact H0.
  - apply H1.
  - apply H2, IH.
Qed.





Lemma np_frombuffer_int16_odd (b : bytes) :
  len b mod 2 = 1 -> np_frombuffer_int16 b = Raise ValueError.
Proof.
  induction b as [|x|lo hi rest IH] using list_pair_ind; intros Hodd.
  - unfold len in Hodd. simpl in Hodd. discriminate.
  - reflexivity.
  - cbn [np_frombuffer_int16]. rewrite IH; [done|].
    unfold len in *. cbn [length] in Hodd.
    rewrite !Nat2Z.inj_succ in Hodd.
    replace (Z.succ (Z.succ (Z.of_nat (length rest))))
      with (Z.of_nat (length rest) + 1 * 2) in Hodd by lia.
    by rewrite Z.mod_add in Hodd by lia.
Qed.




(** Without the decode library the detector is the fallback computation,
    with every exception turned into [False]; the world is untouched. *)
Lemma detect_silence_fallback_path (env : Env) (audio_bytes : bytes)
    (threshold : spec_float) (w : World) :
  SOUNDFILE_AVAILABLE env = false ->
  detect_silence env audio_bytes threshold w
  = (Ok (match _detect_silence_fallback env audio_bytes threshold with
         | Ok b => b
         | Raise _ => false
         end), w).
Proof.
  intros Hsf. unfold detect_silence. rewrite Hsf. unfold_monad.
  by destruct (_detect_silence_fallback env audio_bytes threshold).
Qed.



Lemma detect_silence_fallback_odd (env : Env) (audio_bytes : bytes)
    (threshold : spec_float) :
  1000 <= len audio_bytes -> len audio_bytes mod 2 = 1 ->
  _detect_silence_fallback env audio_bytes threshold = Raise ValueError.
Proof.
  intros H Hodd. unfold _detect_silence_fallback.
  replace (len audio_bytes <? 1000) with false by (symmetry; apply Z.ltb_ge; lia).
  by rewrite np_frombuffer_int16_odd.
Qed.

(** *** Rounding keeps the sign *)









(** *** Sums and means of zeros *)










(** The same computation tells silence from sound: an all-zero buffer of
    1000 bytes is silent at 0.1 and a buffer of full-scale samples is
    not. *)
Lemma detect_silence_fallback_examples :
  fst (detect_silence Demo.env_fallback (Demo.zeros 1000)
         Demo.threshold_default Demo.empty_world) = Ok true
  /\ fst (detect_silence Demo.env_fallback (Demo.constant_buffer 32767 500)
            Demo.threshold_default Demo.empty_world) = Ok false.
Proof. split; vm_compute; reflexivity. Qed.

(** Why the zero-buffer clause asks for a threshold that is positive as
    a float32: [2^-153] is positive, rounds to the float32 zero, and
    under NumPy 2 zero is not below it. *)
Lemma detect_silence_tiny_threshold :
  float_positive Demo.threshold_tiny = true
  /\ float_positive (round32 Demo.threshold_tiny) = false
  /\ fst (detect_silence Demo.env_fallback (Demo.zeros 1000)
            Demo.threshold_tiny Demo.empty_world) = Ok false.
Proof. repeat split; vm_compute; reflexivity. Qed.


(** C9: [detect_silence] returns a boolean on every byte sequence, every
    threshold and every behaviour of the outside components, and never
    raises; without the decode library an input of odd length of at least
    1000 bytes yields false and leaves the world as it was. *)
Theorem detect_silence_total (env : Env) (audio_bytes : bytes)
    (threshold : spec_float) (w : World) :
  exists (b : bool) (w' : World),
    detect_silence env audio_bytes threshold w = (Ok b, w')
    /\ (SOUNDFILE_AVAILABLE env = false -> 1000 <= len audio_bytes ->
        len audio_bytes mod 2 = 1 -> b = false /\ w' = w).
Proof.
  destruct (SOUNDFILE_AVAILABLE env) eqn:Hsf.
  - unfold detect_silence. rewrite Hsf.
    unfold try_except.
    destruct (_detect_silence_with_soundfile env audio_bytes threshold w)
      as [[b|e] w'] eqn:E.
    + exists b, w'. split; [done|]. intros; discriminate.
    + exists false, w'. split; [done|]. intros; discriminate.
  - rewrite detect_silence_fallback_path by done.
    eexists _, _. split; [reflexivity|].
    intros _ Hlen Hodd. by rewrite detect_silence_fallback_odd.
Qed.

(** ** [str.strip] *)

Lemma lstrip_split (s : str) :
  exists pre, s = pre ++ lstrip s /\ forallb isspace pre = true.
Proof.
  induction s as [|c s (pre & IH1 & IH2)]; [by exists []|].
  cbn [lstrip]. destruct (isspace c) eqn:E.
  - exists (c :: pre). split; [simpl; by rewrite <- IH1|].
    simpl. by rewrite E, IH2.
  - by exists [].
Qed.

Lemma lstrip_fixed (s : str) :
  lstrip s = s <-> match s with [] => True | c :: _ => isspace c = false end.
Proof.
  destruct s as [|c s]; [done|]. cbn [lstrip].
  destruct (isspace c) eqn:E; split; try done.
  intros H. destruct (lstrip_split s) as (pre & H1 & _).
  apply (f_equal (@length N)) in H. apply (f_equal (@length N)) in H1.
  rewrite length_app in H1. simpl in H. lia.
Qed.

Lemma lstrip_idemp (s : str) : lstrip (lstrip s) = lstrip s.
Proof.
  induction s as [|c s IH]; [done|]. cbn [lstrip].
  destruct (isspace c) eqn:E; [done|]. cbn [lstrip]. by rewrite E.
Qed.

Lemma rstrip_split (s : str) :
  exists post, s = rstrip s ++ post /\ forallb isspace post = true.
Proof.
  destruct (lstrip_split (rev s)) as (pre & H1 & H2).
  exists (rev pre). split.
  - unfold rstrip. rewrite <- rev_app_distr, <- H1. by rewrite rev_involutive.
  - rewrite forallb_forall in *. intros x Hx. apply H2. by apply in_rev.
Qed.

Lemma clean_strip_id (t : str) : clean t -> strip t = t.
Proof.
  intros [H1 H2]. unfold strip, rstrip. rewrite H1, H2. apply rev_involutive.
Qed.

Lemma strip_clean (s : str) : clean (strip s).
Proof.
  split.
  - unfold strip. set (u := lstrip s).
    assert (Hu : lstrip u = u) by apply lstrip_idemp.
    destruct (rstrip_split u) as (post & H1 & H2).
    apply lstrip_fixed. apply lstrip_fixed in Hu.
    destruct (rstrip u) as [|c r] eqn:E; [done|].
    rewrite H1 in Hu. exact Hu.
  - unfold strip, rstrip. rewrite rev_involutive. apply lstrip_idemp.
Qed.

Lemma clean_nil : clean [].
Proof. by split. Qed.

(** On an accumulator that does not start with whitespace, [strip] only
    trims the end. *)
Lemma strip_rstrip (s : str) : lstrip s = s -> strip s = rstrip s.
Proof. intros H. unfold strip. by rewrite H. Qed.

Lemma spaced_concat_lstrip (ts : list str) :
  Forall clean ts -> lstrip (spaced_concat ts) = spaced_concat ts.
Proof.
  induction 1 as [|t ts Ht _ IH]; [done|].
  unfold spaced_concat in *. cbn [List.filter].
  destruct t as [|c t']; [exact IH|].
  cbn [truthy map concat]. apply lstrip_fixed.
  destruct Ht as [Ht _]. by apply lstrip_fixed in Ht.
Qed.

(** ** [audio_to_text] *)

Lemma extract_top_level_clean (env : Env) (payload : json) (keys : list str)
    (s : str) :
  extract_top_level payload keys = Ok (Some s) -> clean s.
Proof.
  induction keys as [|key rest IH]; [done|]. cbn [extract_top_level].
  destruct (py_contains payload key) as [[|]|]; try done.
  destruct (py_getitem payload key) as [[]|]; try done.
  intros [= <-]. apply strip_clean.
Qed.

Lemma extract_nested_clean (env : Env) (nested : json) (keys : list str)
    (s : str) :
  extract_nested env nested keys = Ok (Some s) -> clean s.
Proof.
  induction keys as [|key rest IH]; [done|]. cbn [extract_nested].
  destruct (py_contains nested key) as [[|]|]; try done.
  destruct (py_getitem nested key) as [v|]; try done.
  intros [= <-]. apply strip_clean.
Qed.

Lemma extract_transcript_clean (env : Env) (payload : json) (s : str) :
  _extract_transcript_from_response env payload = Ok s -> clean s.
Proof.
  unfold _extract_transcript_from_response.
  destruct (extract_top_level payload _) as [[s'|]|] eqn:E1; try done.
  { intros [= <-]. by eapply extract_top_level_clean. }
  destruct (py_contains payload _) as [[|]|]; try done.
  2:{ intros [= <-]. apply clean_nil. }
  destruct (py_getitem payload _) as [[]|]; try done;
    try (intros [= <-]; apply clean_nil).
  destruct (extract_nested env _ _) as [[s'|]|] eqn:E2; try done.
  - intros [= <-]. by eapply extract_nested_clean.
  - intros [= <-]. apply clean_nil.
Qed.

Lemma transcription_calls_app (t1 t2 : list event) :
  transcription_calls (t1 ++ t2) = transcription_calls t1 ++ transcription_calls t2.
Proof. unfold transcription_calls. apply List.filter_app. Qed.

(** [audio_to_text] always returns a string, trimmed at both ends; it
    leaves the file system alone and is one entry in the list of
    transcription calls. *)
Lemma audio_to_text_total (env : Env) (p : string) (w : World) :
  exists (t : str) (w' : World),
    audio_to_text env p w = (Ok t, w')
    /\ clean t
    /\ fs w' = fs w
    /\ transcription_calls (trace w')
       = transcription_calls (trace w) ++ [EvAudioToText p].
Proof.
  unfold audio_to_text. unfold bind at 1. unfold log_event at 1.
  set (w0 := mkWorld (fs w) (trace w ++ [EvAudioToText p])).
  assert (H0 : transcription_calls (trace w0)
               = transcription_calls (trace w) ++ [EvAudioToText p]).
  { subst w0. cbn [trace]. by rewrite transcription_calls_app. }
  destruct (api_key_set env); cbn [negb].
  2:{ exists [], w0. by repeat split; try apply clean_nil. }
  unfold bind at 1. unfold os_path_exists at 1.
  destruct (fs w0 !! p) as [content|] eqn:Ef.
  2:{ rewrite bool_decide_eq_false_2 by (by intros [? ?]).
      unfold bind, ret. cbn.
      exists [], w0. by repeat split; try apply clean_nil. }
  rewrite bool_decide_eq_true_2 by eauto.
  unfold bind at 1. unfold os_path_getsize at 1. rewrite Ef. cbn [negb orb].
  destruct (len content =? 0).
  { exists [], w0. by repeat split; try apply clean_nil. }
  unfold try_except, bind at 1, read_file at 1. rewrite Ef.
  unfold bind at 1, requests_post at 1.
  set (w1 := mkWorld (fs w0) _).
  assert (H1 : transcription_calls (trace w1)
               = transcription_calls (trace w) ++ [EvAudioToText p]).
  { subst w1. cbn [trace]. rewrite transcription_calls_app, H0.
    cbn. by rewrite app_nil_r. }
  destruct (stt_post env _ _ _) as [|status body].
  { exists [], w1. by repeat split; try apply clean_nil. }
  destruct (status =? 200).
  2:{ exists [], w1. by repeat split; try apply clean_nil. }
  destruct body as [payload|].
  2:{ exists [], w1. by repeat split; try apply clean_nil. }
  unfold lift.
  destruct (_extract_transcript_from_response env payload) as [s|e] eqn:E.
  - exists s, w1. split; [done|]. split; [by eapply extract_transcript_clean|].
    by split.
  - exists [], w1. by repeat split; try apply clean_nil.
Qed.

(** ** The chunker always returns *)

Lemma create_audio_chunk_total (env : Env) (audio : Wave_read)
    (start_time end_time : pynum) (frame_rate index : Z) (w : World) :
  exists (r : option string) (w' : World),
    _create_audio_chunk env audio start_time end_time frame_rate index w
    = (Ok r, w')
    /\ trace w' = trace w.
Proof.
  unfold _create_audio_chunk, try_except, bind at 1, lift at 1.
  destruct (chunk_frame_range start_time end_time frame_rate)
    as [[start_frame end_frame]|e]; [|by eexists _, _].
  unfold bind at 1, lift at 1.
  destruct (setpos audio start_frame); [|by eexists _, _].
  unfold bind at 1, write_wave, bind at 1, write_file at 1.
  destruct (wave_write env _ _ _ _); unfold_monad; by eexists _, _.
Qed.

Lemma split_loop_total (env : Env) (fuel : nat) (audio : Wave_read)
    (frame_rate : Z) (total_duration : spec_float)
    (chunk_length start_time index : Z) (chunks : list string) (w : World) :
  exists (r : list string) (w' : World),
    split_loop env fuel audio frame_rate total_duration chunk_length
      start_time index chunks w = (Ok r, w')
    /\ trace w' = trace w.
Proof.
  revert start_time index chunks w.
  induction fuel as [|fuel IH]; intros start_time index chunks w.
  - by eexists _, _.
  - cbn [split_loop].
    destruct (int_lt_float start_time total_duration); [|by eexists _, _].
    unfold bind at 1.
    destruct (create_audio_chunk_total env audio (PInt start_time)
                (py_min (PInt (start_time + chunk_length)) (PFloat total_duration))
                frame_rate index w) as (r & w1 & -> & Ht).
    destruct (IH (start_time + chunk_length) (index + 1)
                (match r with Some name => chunks ++ [name] | None => chunks end)
                w1) as (r2 & w2 & -> & Ht2).
    exists r2, w2. split; [done|]. by rewrite Ht2.
Qed.

(** [split_audio] catches everything it can meet: it returns a list in
    every world and adds one entry to the trace. *)
Lemma split_audio_total (env : Env) (input_file : string)
    (chunk_length : positive) (w : World) :
  exists (chunks : list string) (w' : World),
    split_audio env input_file chunk_length w = (Ok chunks, w')
    /\ trace w' = trace w ++ [EvSplitAudio input_file].
Proof.
  unfold split_audio, bind at 1, log_event at 1, try_except.
  unfold bind at 1, read_file at 1. cbn [fs].
  destruct (fs w !! input_file) as [content|]; [|by eexists _, _].
  destruct (wave_open_rb env content) as [audio|]; [|by eexists _, _].
  unfold bind at 1, lift at 1.
  destruct (true_div (getnframes audio) (getframerate audio))
    as [total_duration|e]; [|by eexists _, _].
  match goal with
  | |- context [split_loop ?e ?f ?a ?r ?d ?c ?s ?i ?ch ?w0] =>
      destruct (split_loop_total e f a r d c s i ch w0) as (r1 & w1 & -> & Ht)
  end.
  by eexists _, _.
Qed.

(** ** The chunk loop of the orchestrator *)

Lemma spaced_concat_cons (t : str) (ts : list str) :
  spaced_concat (t :: ts)
  = (if truthy t then t ++ [space] else []) ++ spaced_concat ts.
Proof. unfold spaced_concat. cbn [List.filter]. by destruct (truthy t). Qed.

Lemma process_chunks_spec (env : Env) (chunks : list string) :
  forall (final_transcript : str) (w : World),
  exists (transcripts : list str) (w2 : World),
    chunk_run env chunks w transcripts w2
    /\ process_chunks env chunks final_transcript w
       = (Ok (final_transcript ++ spaced_concat transcripts), w2)
    /\ Forall clean transcripts
    /\ transcription_calls (trace w2)
       = transcription_calls (trace w) ++ map EvAudioToText chunks
    /\ (forall p, fs w !! p = None -> fs w2 !! p = None)
    /\ (forall c, c ∈ chunks -> fs w2 !! c = None).
Proof.
  induction chunks as [|chunk rest IH]; intros acc w.
  - exists [], w. split; [constructor|].
    split; [by rewrite app_nil_r|]. split; [constructor|].
    split; [by rewrite app_nil_r|]. split; [done|].
    intros c Hc. by apply elem_of_nil in Hc.
  - destruct (audio_to_text_total env chunk w) as (t & w' & Ha & Hclean & Hfs & Htr).
    destruct (cleanup_total chunk w') as (w'' & Hc & Hfs2 & Htr2).
    destruct (IH (if truthy t then acc ++ t ++ [space] else acc) w'')
      as (ts & w2 & Hrun & Hp & Hcl & Htr3 & Hkeep & Hdel).
    exists (t :: ts), w2.
    split; [by econstructor|].
    split.
    { cbn [process_chunks]. unfold bind at 1. rewrite Ha.
      unfold bind at 1. rewrite Hc. rewrite Hp. f_equal. f_equal.
      rewrite spaced_concat_cons. destruct (truthy t).
      - by rewrite <- !app_assoc.
      - done. }
    split; [by constructor|].
    split.
    { rewrite Htr3, Htr2, Htr. cbn [map]. by rewrite <- app_assoc. }
    assert (Hgone : forall p, fs w'' !! p = None -> fs w2 !! p = None) by exact Hkeep.
    split.
    { intros p Hp0. apply Hgone. rewrite Hfs2, Hfs.
      by rewrite lookup_delete_None; right. }
    intros c Hc0. apply elem_of_cons in Hc0 as [->|Hin].
    + apply Hgone. rewrite Hfs2. apply lookup_delete_eq.
    + by apply Hdel.
Qed.

(** ** The orchestrator *)

Lemma len_zero_nil {A} (l : list A) : len l = 0 <-> l = [].
Proof.
  unfold len. destruct l; simpl; split; try done; lia.
Qed.

(** Past validation the body is the chunker followed by one of the two
    transcription paths. *)
Lemma process_long_audio_body_valid (env : Env) (input_file : string)
    (w : World) (content : bytes) :
  api_utils_importable env = true ->
  fs w !! input_file = Some content -> content <> [] ->
  process_long_audio_body env input_file w
  = (chunks <~ split_audio env input_file 30 ;;
     match chunks with
     | [] =>
         transcript <~ audio_to_text env input_file ;;
         ret (if truthy transcript then strip transcript else [])
     | _ :: _ =>
         final_transcript <~ process_chunks env chunks [] ;;
         ret (strip final_transcript)
     end) w.
Proof.
  intros Himp Hf Hne. unfold process_long_audio_body, import_api_utils.
  rewrite Himp. unfold bind at 1, ret at 1.
  unfold bind at 1, os_path_exists at 1.
  rewrite bool_decide_eq_true_2 by eauto.
  unfold bind at 1, os_path_getsize at 1. rewrite Hf.
  replace (len content =? 0) with false; [done|].
  symmetry. apply Z.eqb_neq. by rewrite len_zero_nil.
Qed.

Lemma process_long_audio_body_invalid (env : Env) (input_file : string)
    (w : World) :
  fs w !! input_file = None \/ fs w !! input_file = Some [] ->
  process_long_audio_body env input_file w = (Ok [], w)
  \/ process_long_audio_body env input_file w = (Raise ImportError, w).
Proof.
  intros Hf. unfold process_long_audio_body, import_api_utils.
  destruct (api_utils_importable env); [left|by right].
  unfold bind at 1, ret at 1. unfold bind at 1, os_path_exists at 1.
  destruct Hf as [Hf|Hf].
  - rewrite bool_decide_eq_false_2 by (rewrite Hf; by intros [? ?]).
    reflexivity.
  - rewrite bool_decide_eq_true_2 by eauto.
    unfold bind at 1, os_path_getsize at 1. by rewrite Hf.
Qed.

(** C7: for a path that does not exist or names a zero-length file,
    [process_long_audio] returns the empty string and leaves the world as
    it was: the chunker is not invoked and no transcription call or HTTP
    request is made. *)
Theorem process_long_audio_missing_or_empty (env : Env)
    (input_file : string) (w : World) :
  fs w !! input_file = None \/ fs w !! input_file = Some [] ->
  process_long_audio env input_file w = (Ok [], w).
Proof.
  intros Hf. unfold process_long_audio, try_except.
  by destruct (process_long_audio_body_invalid env input_file w Hf) as [-> | ->].
Qed.

Lemma process_long_audio_missing_or_empty_witness :
  process_long_audio Demo.env_fallback "recorded_audio.wav"
    (Demo.world_with "recorded_audio.wav" [])
  = (Ok [], Demo.world_with "recorded_audio.wav" []).
Proof.
  apply (process_long_audio_missing_or_empty Demo.env_fallback
           "recorded_audio.wav" (Demo.world_with "recorded_audio.wav" [])).
  right. reflexivity.
Defined.

(** C5: [process_long_audio] never hands an exception to its caller: in
    every world and for every behaviour of the outside components it
    returns a string, and whenever its body raises that string is empty. *)
Theorem process_long_audio_never_raises (env : Env) (input_file : string)
    (w : World) :
  exists (t : str) (w' : World),
    process_long_audio env input_file w = (Ok t, w')
    /\ forall e w1,
         process_long_audio_body env input_file w = (Raise e, w1) ->
         t = [] /\ w' = w1.
Proof.
  unfold process_long_audio, try_except.
  destruct (process_long_audio_body env input_file w) as [[t|e] w'].
  - exists t, w'. split; [done|]. intros; discriminate.
  - exists [], w'. split; [done|]. by intros e' w1 [= _ <-].
Qed.

(** The body does raise in some worlds: a failing import is one. *)
Lemma process_long_audio_import_error (env : Env) (input_file : string)
    (w : World) :
  api_utils_importable env = false ->
  process_long_audio_body env input_file w = (Raise ImportError, w)
  /\ process_long_audio env input_file w = (Ok [], w).
Proof.
  intros H. unfold process_long_audio, try_except, process_long_audio_body,
    import_api_utils. by rewrite H.
Qed.

(** C6: when the chunker returns no chunks, [process_long_audio] makes
    exactly one transcription call, on the original input file, and
    returns that call's result as it is. *)
Theorem process_long_audio_whole_file (env : Env) (input_file : string)
    (w w1 : World) (content : bytes) :
  api_utils_importable env = true ->
  fs w !! input_file = Some content -> content <> [] ->
  split_audio env input_file 30 w = (Ok [], w1) ->
  exists (t : str) (w2 : World),
    audio_to_text env input_file w1 = (Ok t, w2)
    /\ process_long_audio env input_file w = (Ok t, w2)
    /\ transcription_calls (trace w2)
       = transcription_calls (trace w) ++ [EvAudioToText input_file].
Proof.
  intros Himp Hf Hne Hsplit.
  destruct (audio_to_text_total env input_file w1) as (t & w2 & Ha & Hclean & _ & Htr).
  exists t, w2. split; [done|]. split.
  - unfold process_long_audio, try_except.
    rewrite (process_long_audio_body_valid env input_file w content) by done.
    unfold bind at 1. rewrite Hsplit. unfold bind at 1. rewrite Ha.
    unfold ret. rewrite clean_strip_id by done. by destruct t.
  - rewrite Htr.
    destruct (split_audio_total env input_file 30 w) as (c & w1' & Hs & Ht).
    rewrite Hsplit in Hs. injection Hs as <- <-.
    rewrite Ht, transcription_calls_app. cbn. by rewrite app_nil_r.
Qed.

(** C4: when the chunker returns a non-empty list of chunks, the result
    of [process_long_audio] is the concatenation, in chunk order, of
    every non-empty per-chunk transcript followed by a single space, with
    the trailing whitespace trimmed; [audio_to_text] is called once per
    chunk, in chunk order, and no chunk file is left when the function
    returns. *)
Theorem process_long_audio_chunks (env : Env) (input_file : string)
    (w w1 : World) (content : bytes) (chunks : list string) :
  api_utils_importable env = true ->
  fs w !! input_file = Some content -> content <> [] ->
  split_audio env input_file 30 w = (Ok chunks, w1) ->
  chunks <> [] ->
  exists (transcripts : list str) (w2 : World),
    chunk_run env chunks w1 transcripts w2
    /\ process_long_audio env input_file w
       = (Ok (rstrip (spaced_concat transcripts)), w2)
    /\ transcription_calls (trace w2)
       = transcription_calls (trace w) ++ map EvAudioToText chunks
    /\ forall c, c ∈ chunks -> fs w2 !! c = None.
Proof.
  intros Himp Hf Hne Hsplit Hchunks.
  destruct (process_chunks_spec env chunks [] w1)
    as (ts & w2 & Hrun & Hp & Hclean & Htr & _ & Hdel).
  exists ts, w2. split; [done|]. split; [|split; [|done]].
  - unfold process_long_audio, try_except.
    rewrite (process_long_audio_body_valid env input_file w content) by done.
    unfold bind at 1. rewrite Hsplit.
    destruct chunks as [|c rest]; [done|].
    unfold bind at 1. rewrite Hp. unfold ret. cbn [app].
    by rewrite strip_rstrip by (by apply spaced_concat_lstrip).
  - rewrite Htr.
    destruct (split_audio_total env input_file 30 w) as (c & w1' & Hs & Ht).
    rewrite Hsplit in Hs. injection Hs as <- <-.
    rewrite Ht, transcription_calls_app. cbn. by rewrite app_nil_r.
Qed.

Lemma process_long_audio_whole_file_witness :
  exists (t : str) (w2 : World),
    audio_to_text Demo.env_fallback "recorded_audio.wav"
      (mkWorld {[ "recorded_audio.wav" := Demo.zeros 10 ]}
               [EvSplitAudio "recorded_audio.wav"]) = (Ok t, w2)
    /\ process_long_audio Demo.env_fallback "recorded_audio.wav"
         (Demo.world_with "recorded_audio.wav" (Demo.zeros 10)) = (Ok t, w2)
    /\ transcription_calls (trace w2)
       = transcription_calls
           (trace (Demo.world_with "recorded_audio.wav" (Demo.zeros 10)))
         ++ [EvAudioToText "recorded_audio.wav"].
Proof.
  apply (process_long_audio_whole_file Demo.env_fallback "recorded_audio.wav"
           (Demo.world_with "recorded_audio.wav" (Demo.zeros 10))
           (mkWorld {[ "recorded_audio.wav" := Demo.zeros 10 ]}
                    [EvSplitAudio "recorded_audio.wav"])
           (Demo.zeros 10)).
  - reflexivity.
  - vm_compute. reflexivity.
  - vm_compute. discriminate.
  - vm_compute. reflexivity.
Defined.

Lemma process_long_audio_chunks_witness :
  exists (transcripts : list str) (w2 : World),
    chunk_run Demo.env_fallback ["chunk_1.wav"; "chunk_2.wav"; "chunk_3.wav"]
      (snd (split_audio Demo.env_fallback "recorded_audio.wav" 30
              (Demo.world_with "recorded_audio.wav" (Demo.recording 1 75))))
      transcripts w2
    /\ process_long_audio Demo.env_fallback "recorded_audio.wav"
         (Demo.world_with "recorded_audio.wav" (Demo.recording 1 75))
       = (Ok (rstrip (spaced_concat transcripts)), w2)
    /\ transcription_calls (trace w2)
       = transcription_calls
           (trace (Demo.world_with "recorded_audio.wav" (Demo.recording 1 75)))
         ++ map EvAudioToText ["chunk_1.wav"; "chunk_2.wav"; "chunk_3.wav"]
    /\ forall c, c ∈ ["chunk_1.wav"; "chunk_2.wav"; "chunk_3.wav"] ->
                 fs w2 !! c = None.
Proof.
  apply (process_long_audio_chunks Demo.env_fallback "recorded_audio.wav"
           (Demo.world_with "recorded_audio.wav" (Demo.recording 1 75))
           (snd (split_audio Demo.env_fallback "recorded_audio.wav" 30
                   (Demo.world_with "recorded_audio.wav" (Demo.recording 1 75))))
           (Demo.recording 1 75)
           ["chunk_1.wav"; "chunk_2.wav"; "chunk_3.wav"]).
  - reflexivity.
  - vm_compute. reflexivity.
  - vm_compute. discriminate.
  - vm_compute. reflexivity.
  - discriminate.
Defined.

(** The 75-second recording of the specification's scenario: three
    chunks of 30, 30 and 15 seconds, and the transcripts of the three
    calls joined by single spaces. *)
Example process_long_audio_75_seconds :
  let w := Demo.world_with "recorded_audio.wav" (Demo.recording 1 75) in
  let chunked := split_audio Demo.env_fallback "recorded_audio.wav" 30 w in
  fst chunked = Ok ["chunk_1.wav"; "chunk_2.wav"; "chunk_3.wav"]
  /\ map (fun c => getnframes <$> (fs (snd chunked) !! c ≫= Demo.canonical_open))
       ["chunk_1.wav"; "chunk_2.wav"; "chunk_3.wav"]
     = [Some 30; Some 30; Some 15]
  /\ fst (process_long_audio Demo.env_fallback "recorded_audio.wav" w)
     = Ok (of_string "namaste loan").
Proof. vm_compute. repeat split; reflexivity. Qed.

(** ** The chunker on a five-second recording *)

(** C1, evaluated: a mono 16-bit recording of 220501 frames at 44100 Hz
    yields one chunk, as the claim says, but the chunk holds 220500
    frames.  The duration [220501 / 44100] is a binary64 float, its
    product with the frame rate is just below 220501, and [int]
    truncates where the claim rounds; the last frame is in no chunk. *)
Theorem split_audio_drops_last_frame :
  let input := Demo.recording 44100 220501 in
  let w := Demo.world_with "recorded_audio.wav" input in
  let chunked := split_audio Demo.env_fallback "recorded_audio.wav" 30 w in
  getnframes <$> Demo.canonical_open input = Some 220501
  /\ (exists total_duration,
        true_div 220501 44100 = Ok total_duration
        /\ chunk_frame_range (PInt 0)
             (py_min (PInt 30) (PFloat total_duration)) 44100
           = Ok (0, 220500))
  /\ fst chunked = Ok ["chunk_1.wav"]
  /\ getnframes <$> (fs (snd chunked) !! "chunk_1.wav" ≫= Demo.canonical_open)
     = Some 220500.
Proof.
  cbv zeta. split; [vm_compute; reflexivity|].
  split; [eexists; split; vm_compute; reflexivity|].
  split; vm_compute; reflexivity.
Qed.

(** ** The chunker's loop ends by its own condition *)

Lemma float_frac_den_pos (f : spec_float) (num den : Z) :
  float_frac f = Some (num, den) -> 0 < den.
Proof.
  destruct f as [s| s | |s m e]; try done.
  - by intros [= <- <-].
  - cbn [float_frac]. destruct (0 <=? e) eqn:E; intros [= <- <-]; [done|].
    apply Z.leb_gt in E. apply Z.pow_pos_nonneg; lia.
Qed.

Lemma int_lt_float_ceil (a : Z) (f : spec_float) :
  is_Some (float_frac f) -> int_lt_float a f = true -> a < float_ceil f.
Proof.
  intros [[num den] Hf]. unfold int_lt_float, float_ceil. rewrite Hf.
  pose proof (float_frac_den_pos f num den Hf) as Hden.
  intros Hlt. apply Z.ltb_lt in Hlt.
  pose proof (Z.mul_div_le (- num) den Hden).
  nia.
Qed.

Lemma split_loop_fuel_enough (env : Env) (audio : Wave_read) (frame_rate : Z)
    (total_duration : spec_float) (chunk_length : Z) (extra : nat) :
  1 <= chunk_length -> is_Some (float_frac total_duration) ->
  forall (fuel : nat) (start_time index : Z) (chunks : list string) (w : World),
    float_ceil total_duration - start_time < Z.of_nat fuel ->
    split_loop env (fuel + extra) audio frame_rate total_duration chunk_length
      start_time index chunks w
    = split_loop env fuel audio frame_rate total_duration chunk_length
        start_time index chunks w.
Proof.
  intros Hcl Hfin. induction fuel as [|fuel IH];
    intros start_time index chunks w Hfuel.
  - destruct extra as [|extra]; [done|]. cbn [Nat.add split_loop].
    destruct (int_lt_float start_time total_duration) eqn:E; [|done].
    apply int_lt_float_ceil in E; [|done]. lia.
  - cbn [Nat.add split_loop].
    destruct (int_lt_float start_time total_duration) eqn:E; [|done].
    unfold bind.
    destruct (_create_audio_chunk env audio (PInt start_time) _ frame_rate index w)
      as [[r|e] w1]; [|done].
    apply IH. lia.
Qed.

(** The fuel [split_audio] gives its loop is never used up: any larger
    amount leads to the same chunks and the same world. *)
Lemma split_audio_fuel_irrelevant (env : Env) (audio : Wave_read)
    (total_duration : spec_float) (chunk_length : positive) (extra : nat)
    (w : World) :
  true_div (getnframes audio) (getframerate audio) = Ok total_duration ->
  split_loop env (split_fuel total_duration + extra) audio (getframerate audio)
    total_duration (Z.pos chunk_length) 0 1 [] w
  = split_loop env (split_fuel total_duration) audio (getframerate audio)
      total_duration (Z.pos chunk_length) 0 1 [] w.
Proof.
  intros Hdiv. apply split_loop_fuel_enough.
  - lia.
  - unfold true_div in Hdiv. destruct (getframerate audio =? 0); [done|].
    cbv zeta in Hdiv.
    destruct (float_frac (SFdiv _ _ _ _)) eqn:E; [|done].
    injection Hdiv as <-. by rewrite E.
  - unfold split_fuel. lia.
Qed.

(** * Further properties of the modelled code *)

(** ** [_cleanup_temp_file] *)

(** X1: [_cleanup_temp_file] never raises; afterwards the path is
    absent, every other file is as before and no call was made. *)
Theorem cleanup_temp_file_spec (p : string) (w : World) :
  _cleanup_temp_file p w = (Ok tt, mkWorld (delete p (fs w)) (trace w)).
Proof.
  destruct (fs w !! p) as [c|] eqn:E.
  - by eapply cleanup_present.
  - rewrite cleanup_absent by done. rewrite delete_id by done.
    by destruct w.
Qed.

(** ** [create_basic_wav] and [convert_webm_to_wav] *)

Lemma len_app {A} (l1 l2 : list A) : len (l1 ++ l2) = len l1 + len l2.
Proof. unfold len. rewrite length_app. lia. Qed.

Lemma create_basic_wav_Some_inv (audio_data out : bytes) :
  create_basic_wav audio_data = Some out ->
  36 + len audio_data < 2 ^ 32
  /\ out = header_of (len audio_data) ++ audio_data.
Proof.
  intros H. destruct (Z.lt_ge_cases (36 + len audio_data) (2 ^ 32)) as [Hl|Hl].
  - split; [done|]. unfold create_basic_wav in H.
    rewrite wav_header_Some in H by (pose proof (len_nonneg audio_data); lia).
    by injection H as <-.
  - rewrite create_basic_wav_overflow in H by lia. discriminate.
Qed.

Lemma header_of_app_slices (n : Z) (rest : bytes) :
  slice (header_of n ++ rest) 0 4 = b_RIFF
  /\ slice (header_of n ++ rest) 8 12 = b_WAVE
  /\ slice (header_of n ++ rest) 4 8 = digits_le 4 (36 + n)
  /\ slice (header_of n ++ rest) 40 44 = digits_le 4 n
  /\ skipn 44 (header_of n ++ rest) = rest.
Proof. repeat split; reflexivity. Qed.

(** X2: whatever [create_basic_wav] returns can be taken apart again: the
    payload is the output after its first 44 bytes, the RIFF size field
    is the output's length less 8, the data size field is the payload's
    length, and the output carries the signature that
    [_check_existing_wav_format] looks for. *)
Theorem create_basic_wav_round_trip (audio_data out : bytes) :
  create_basic_wav audio_data = Some out ->
  skipn 44 out = audio_data
  /\ len out = 44 + len audio_data
  /\ le_field out 4 4 = len out - 8
  /\ le_field out 40 4 = len (skipn 44 out)
  /\ _check_existing_wav_format out = Some out.
Proof.
  intros H. apply create_basic_wav_Some_inv in H as [Hfit ->].
  pose proof (len_nonneg audio_data) as Hn.
  destruct (header_of_app_slices (len audio_data) audio_data)
    as (H1 & H2 & H3 & H4 & H5).
  assert (Hlen : len (header_of (len audio_data) ++ audio_data)
                 = 44 + len audio_data).
  { destruct (header_of_fields (len audio_data) Hn Hfit) as [Hl _].
    rewrite len_app. unfold len at 1. rewrite Hl. lia. }
  split; [done|]. split; [done|]. split.
  { unfold le_field. change (4 + 4)%nat with 8%nat. rewrite H3, Hlen.
    rewrite from_bytes_digits_le; [lia|].
    change (256 ^ Z.of_nat 4) with (2 ^ 32). lia. }
  split.
  { unfold le_field. change (40 + 4)%nat with 44%nat. rewrite H4, H5.
    apply from_bytes_digits_le. change (256 ^ Z.of_nat 4) with (2 ^ 32). lia. }
  by apply check_existing_wav_format_Some.
Qed.

Lemma create_basic_wav_round_trip_witness :
  skipn 44 (default [] (create_basic_wav [x0a; x0b; x0c])) = [x0a; x0b; x0c]
  /\ le_field (default [] (create_basic_wav [x0a; x0b; x0c])) 4 4 = 39.
Proof.
  destruct (create_basic_wav_round_trip [x0a; x0b; x0c]
              (default [] (create_basic_wav [x0a; x0b; x0c])))
    as (H1 & H2 & H3 & _); [reflexivity|].
  split; [exact H1|]. rewrite H3, H2. reflexivity.
Defined.

(** X3: [convert_webm_to_wav] never raises and makes no outside call; it
    changes no file other than its scratch file, and for an input of at
    least 100 bytes the scratch file does not exist when it returns,
    whichever strategy won or failed. *)
Theorem convert_webm_to_wav_scratch (env : Env) (audio_bytes : bytes)
    (w : World) :
  exists (r : option bytes) (w' : World),
    convert_webm_to_wav env audio_bytes w = (Ok r, w')
    /\ trace w' = trace w
    /\ (forall p, p <> temp_audio_input -> fs w' !! p = fs w !! p)
    /\ (100 <= len audio_bytes -> fs w' !! temp_audio_input = None).
Proof.
  destruct (Z.lt_ge_cases (len audio_bytes) 100) as [Hs|Hs].
  - rewrite convert_webm_to_wav_small by done.
    exists None, w. repeat split; try done. lia.
  - rewrite convert_webm_to_wav_chain by done.
    eexists _, _. split; [reflexivity|]. cbn [fs trace].
    split; [done|]. split.
    + intros p Hp. by rewrite lookup_delete_ne.
    + intros _. apply lookup_delete_eq.
Qed.

Lemma first_truthy_cases (a b c : option bytes) :
  first_truthy [a; b; c] = None
  \/ exists out, out <> [] /\ first_truthy [a; b; c] = Some out
       /\ (a = Some out
           \/ (truthy_bytes a = false /\ b = Some out)
           \/ (truthy_bytes a = false /\ truthy_bytes b = false /\ c = Some out)).
Proof.
  cbn [first_truthy].
  destruct (truthy_bytes a) eqn:Ea.
  { right. destruct a as [[|x l]|]; try done. exists (x :: l). eauto. }
  destruct (truthy_bytes b) eqn:Eb.
  { right. destruct b as [[|x l]|]; try done. exists (x :: l).
    split; [done|]. split; [done|]. right. left. done. }
  destruct (truthy_bytes c) eqn:Ec.
  { right. destruct c as [[|x l]|]; try done. exists (x :: l).
    split; [done|]. split; [done|]. right. right. done. }
  by left.
Qed.

Lemma convert_webm_to_wav_outcomes_aux (env : Env) (audio_bytes out : bytes)
    (w : World) :
  fst (convert_webm_to_wav env audio_bytes w) = Ok (Some out) ->
  out <> [] /\ 100 <= len audio_bytes
  /\ (library_decode env audio_bytes = Some out
      \/ (truthy_bytes (library_decode env audio_bytes) = false
          /\ out = audio_bytes
          /\ slice audio_bytes 0 4 = b_RIFF /\ slice audio_bytes 8 12 = b_WAVE)
      \/ (truthy_bytes (library_decode env audio_bytes) = false
          /\ ~ (slice audio_bytes 0 4 = b_RIFF /\ slice audio_bytes 8 12 = b_WAVE)
          /\ 1000 < len audio_bytes
          /\ out = header_of (len audio_bytes) ++ audio_bytes)).
Proof.
  destruct (Z.lt_ge_cases (len audio_bytes) 100) as [Hs|Hs].
  { by rewrite convert_webm_to_wav_small by done. }
  rewrite convert_webm_to_wav_chain by done. cbn [fst].
  unfold strategy_chain. intros H.
  assert (H' : first_truthy [library_decode env audio_bytes;
                             _check_existing_wav_format audio_bytes;
                             _create_basic_wav_fallback audio_bytes]
               = Some out) by congruence.
  clear H. rename H' into H.
  destruct (first_truthy_cases (library_decode env audio_bytes)
              (_check_existing_wav_format audio_bytes)
              (_create_basic_wav_fallback audio_bytes))
    as [Hn|(o & Hne & Ho & Hcase)]; [congruence|].
  rewrite Ho in H. injection H as ->.
  split; [done|]. split; [done|].
  destruct Hcase as [Ha|[[Ha Hb]|(Ha & Hb & Hc)]].
  - by left.
  - right. left. split; [done|].
    unfold _check_existing_wav_format, bytes_eqb in Hb.
    destruct (bool_decide (slice audio_bytes 0 4 = b_RIFF)) eqn:E1; [|done].
    destruct (bool_decide (slice audio_bytes 8 12 = b_WAVE)) eqn:E2; [|done].
    apply bool_decide_eq_true_1 in E1. apply bool_decide_eq_true_1 in E2.
    cbn in Hb. by injection Hb as ->.
  - right. right. split; [done|].
    unfold _create_basic_wav_fallback in Hc.
    destruct (len audio_bytes <=? 1000) eqn:El; [done|].
    apply Z.leb_gt in El.
    apply create_basic_wav_Some_inv in Hc as [_ ->].
    split; [|done].
    intros [H1 H2].
    rewrite check_existing_wav_format_Some in Hb by done.
    rewrite truthy_bytes_Some in Hb by lia. discriminate.
Qed.

(** X4: what [convert_webm_to_wav] returns is never the empty byte
    string, and it is one of three things: the library's re-encoding, the
    input itself (only when it carries the RIFF/WAVE signature and the
    library gave nothing), or the synthesized header followed by the
    input (only when the input is longer than 1000 bytes and the two
    earlier strategies gave nothing). *)
Theorem convert_webm_to_wav_outcomes (env : Env) (audio_bytes out : bytes)
    (w : World) :
  fst (convert_webm_to_wav env audio_bytes w) = Ok (Some out) ->
  out <> [] /\ 100 <= len audio_bytes
  /\ (library_decode env audio_bytes = Some out
      \/ (truthy_bytes (library_decode env audio_bytes) = false
          /\ out = audio_bytes
          /\ slice audio_bytes 0 4 = b_RIFF /\ slice audio_bytes 8 12 = b_WAVE)
      \/ (truthy_bytes (library_decode env audio_bytes) = false
          /\ ~ (slice audio_bytes 0 4 = b_RIFF /\ slice audio_bytes 8 12 = b_WAVE)
          /\ 1000 < len audio_bytes
          /\ out = header_of (len audio_bytes) ++ audio_bytes)).
Proof. intros. eapply convert_webm_to_wav_outcomes_aux; eauto. Qed.

Lemma convert_webm_to_wav_outcomes_witness :
  Demo.zeros 1001 <> []
  /\ fst (convert_webm_to_wav Demo.env_fallback (Demo.zeros 1001)
            Demo.empty_world)
     = Ok (Some (header_of 1001 ++ Demo.zeros 1001)).
Proof.
  assert (H : fst (convert_webm_to_wav Demo.env_fallback (Demo.zeros 1001)
                     Demo.empty_world)
              = Ok (Some (header_of 1001 ++ Demo.zeros 1001)))
    by (vm_compute; reflexivity).
  destruct (convert_webm_to_wav_outcomes Demo.env_fallback (Demo.zeros 1001)
              (header_of 1001 ++ Demo.zeros 1001) Demo.empty_world H)
    as (_ & _ & _).
  split; [|exact H]. vm_compute. discriminate.
Defined.

(** X5: without the decode library, normalising is idempotent: what
    [convert_webm_to_wav] returned is returned unchanged when it is
    passed in again, in any world. *)
Theorem convert_webm_to_wav_idempotent (env : Env) (audio_bytes out : bytes)
    (w w2 : World) :
  SOUNDFILE_AVAILABLE env = false ->
  fst (convert_webm_to_wav env audio_bytes w) = Ok (Some out) ->
  fst (convert_webm_to_wav env out w2) = Ok (Some out).
Proof.
  intros Hsf H.
  assert (Hlib : forall b, truthy_bytes (library_decode env b) = false).
  { intros b. unfold library_decode. by rewrite Hsf. }
  apply convert_webm_to_wav_outcomes_aux in H
    as (Hne & Hlen & [Ha|[(_ & -> & H1 & H2)|(_ & _ & Hbig & ->)]]).
  - specialize (Hlib audio_bytes). rewrite Ha in Hlib.
    destruct out; [done|discriminate].
  - rewrite convert_webm_to_wav_chain by done. cbn [fst].
    unfold strategy_chain, first_truthy. rewrite Hlib.
    rewrite check_existing_wav_format_Some by done.
    by rewrite truthy_bytes_Some by lia.
  - set (o := header_of (len audio_bytes) ++ audio_bytes).
    assert (Hlo : 100 <= len o).
    { subst o. unfold len. rewrite length_app. unfold len in Hbig. lia. }
    rewrite convert_webm_to_wav_chain by done. cbn [fst].
    unfold strategy_chain, first_truthy. rewrite Hlib.
    destruct (header_of_app_slices (len audio_bytes) audio_bytes)
      as (H1 & H2 & _).
    rewrite check_existing_wav_format_Some by done.
    by rewrite truthy_bytes_Some by lia.
Qed.

Lemma convert_webm_to_wav_idempotent_witness :
  fst (convert_webm_to_wav Demo.env_fallback
         (header_of 1001 ++ Demo.zeros 1001) Demo.empty_world)
  = Ok (Some (header_of 1001 ++ Demo.zeros 1001)).
Proof.
  apply (convert_webm_to_wav_idempotent Demo.env_fallback (Demo.zeros 1001)
           (header_of 1001 ++ Demo.zeros 1001) Demo.empty_world
           Demo.empty_world).
  - reflexivity.
  - vm_compute. reflexivity.
Defined.

(** ** [detect_silence] with the decode library *)



(** ** [np.frombuffer] as used by the fallback detector *)

Lemma Z_of_byte_range (b : byte) : 0 <= Z_of_byte b <= 255.
Proof.
  unfold Z_of_byte. pose proof (Byte.to_N_bounded b). lia.
Qed.

Lemma int16_of_range (lo hi : byte) : -32768 <= int16_of lo hi <= 32767.
Proof.
  unfold int16_of.
  pose proof (Z_of_byte_range lo). pose proof (Z_of_byte_range hi).
  destruct (Z.ltb_spec (Z_of_byte lo + 256 * Z_of_byte hi) 32768); lia.
Qed.

(** X7: when the sample decoding succeeds, the buffer held exactly two
    bytes per sample and every sample is a 16-bit signed value. *)
Theorem np_frombuffer_int16_samples (b : bytes) (samples : list Z) :
  np_frombuffer_int16 b = Ok samples ->
  len b = 2 * len samples
  /\ Forall (fun s => -32768 <= s <= 32767) samples.
Proof.
  revert samples.
  induction b as [|x|lo hi rest IH] using list_pair_ind; intros samples H.
  - injection H as <-. by split.
  - discriminate.
  - cbn [np_frombuffer_int16] in H.
    destruct (np_frombuffer_int16 rest) as [s|e]; [|discriminate].
    injection H as <-. destruct (IH s eq_refl) as [Hl Hf].
    split.
    + unfold len in *. cbn [length]. lia.
    + constructor; [apply int16_of_range | done].
Qed.

Lemma np_frombuffer_int16_samples_witness :
  len [xff; xff; x00; x80] = 2 * len [-1; -32768]
  /\ Forall (fun s => -32768 <= s <= 32767) [-1; -32768].
Proof.
  apply (np_frombuffer_int16_samples [xff; xff; x00; x80] [-1; -32768]).
  reflexivity.
Defined.

(** ** [audio_to_text] and [_extract_transcript_from_response] *)

Lemma api_key_unset_cases (env : Env) :
  api_key_set env = false <->
  SARVAM_API_KEY env = None \/ SARVAM_API_KEY env = Some [].
Proof.
  unfold api_key_set. destruct (SARVAM_API_KEY env) as [[|c k]|]; cbn;
    split; auto; try done; intros H; destruct H; done.
Qed.

Lemma audio_to_text_no_request_aux (env : Env) (p : string) (w : World) :
  api_key_set env = false \/ fs w !! p = None \/ fs w !! p = Some [] ->
  audio_to_text env p w
  = (Ok [], mkWorld (fs w) (trace w ++ [EvAudioToText p])).
Proof.
  intros H. unfold audio_to_text. unfold bind at 1, log_event at 1.
  destruct (api_key_set env) eqn:Ek; cbn [negb]; [|done].
  destruct H as [H|H]; [done|].
  unfold bind at 1, os_path_exists at 1. cbn [fs].
  destruct H as [H|H]; rewrite H.
  - rewrite bool_decide_eq_false_2 by (by intros [? ?]). reflexivity.
  - rewrite bool_decide_eq_true_2 by eauto.
    unfold bind at 1, os_path_getsize at 1. cbn [fs]. by rewrite H.
Qed.

(** X8: without an API key (unset or empty), or for a path that does not
    exist or names an empty file, [audio_to_text] returns the empty
    string and sends no HTTP request; the file system is untouched. *)
Theorem audio_to_text_no_request (env : Env) (p : string) (w : World) :
  SARVAM_API_KEY env = None \/ SARVAM_API_KEY env = Some []
  \/ fs w !! p = None \/ fs w !! p = Some [] ->
  audio_to_text env p w
  = (Ok [], mkWorld (fs w) (trace w ++ [EvAudioToText p])).
Proof.
  intros H. apply audio_to_text_no_request_aux.
  rewrite api_key_unset_cases. tauto.
Qed.

Lemma audio_to_text_no_request_witness :
  audio_to_text Demo.env_fallback "missing.wav" Demo.empty_world
  = (Ok [], mkWorld (fs Demo.empty_world)
              (trace Demo.empty_world ++ [EvAudioToText "missing.wav"])).
Proof.
  apply (audio_to_text_no_request Demo.env_fallback "missing.wav"
           Demo.empty_world).
  right. right. left. reflexivity.
Defined.

Lemma audio_to_text_one_request_aux (env : Env) (p : string) (w : World)
    (content : bytes) :
  api_key_set env = true ->
  fs w !! p = Some content -> content <> [] ->
  audio_to_text env p w
  = (Ok (transcript_of_outcome env
           (stt_post env (posts_in (trace w)) (basename p) content)),
     mkWorld (fs w)
       (trace w ++ [EvAudioToText p; EvHttpPost (basename p) content])).
Proof.
  intros Hk Hf Hne. unfold audio_to_text. unfold bind at 1, log_event at 1.
  rewrite Hk. cbn [negb].
  unfold bind at 1, os_path_exists at 1. cbn [fs].
  rewrite bool_decide_eq_true_2 by eauto.
  unfold bind at 1, os_path_getsize at 1. cbn [fs]. rewrite Hf.
  replace (len content =? 0) with false
    by (symmetry; apply Z.eqb_neq; by rewrite len_zero_nil).
  cbn [negb orb].
  unfold try_except, bind at 1, read_file at 1. cbn [fs]. rewrite Hf.
  unfold bind at 1, requests_post at 1. cbn [fs trace].
  assert (Hn : length (filter (fun e => is_post e = true)
                         (trace w ++ [EvAudioToText p]))
               = posts_in (trace w)).
  { unfold posts_in. rewrite filter_app. cbn. by rewrite app_nil_r. }
  rewrite Hn. rewrite <- app_assoc. cbn [app].
  unfold transcript_of_outcome.
  destruct (stt_post env _ _ _) as [|status body]; [done|].
  destruct (status =? 200); [|by destruct body].
  destruct body as [payload|]; [|done].
  unfold lift. by destruct (_extract_transcript_from_response env payload).
Qed.

(** X9: with an API key and a non-empty file, [audio_to_text] sends
    exactly one request, carrying the file's base name and its contents;
    its result is the transcript extracted from a 200 response and the
    empty string for every other answer (a failed request, another
    status, a body that is not JSON, a payload that makes the extraction
    raise). *)
Theorem audio_to_text_one_request (env : Env) (p : string) (w : World)
    (content : bytes) :
  api_key_set env = true ->
  fs w !! p = Some content -> content <> [] ->
  audio_to_text env p w
  = (Ok (transcript_of_outcome env
           (stt_post env (posts_in (trace w)) (basename p) content)),
     mkWorld (fs w)
       (trace w ++ [EvAudioToText p; EvHttpPost (basename p) content])).
Proof. intros. eapply audio_to_text_one_request_aux; eauto. Qed.

Lemma audio_to_text_one_request_witness :
  audio_to_text Demo.env_fallback "dir/clip.wav"
    (Demo.world_with "dir/clip.wav" [x01])
  = (Ok (of_string "namaste"),
     mkWorld {[ "dir/clip.wav" := [x01] ]}
       [EvAudioToText "dir/clip.wav"; EvHttpPost "clip.wav" [x01]]).
Proof.
  rewrite (audio_to_text_one_request Demo.env_fallback "dir/clip.wav"
             (Demo.world_with "dir/clip.wav" [x01]) [x01]).
  - vm_compute. reflexivity.
  - reflexivity.
  - vm_compute. reflexivity.
  - discriminate.
Defined.

Lemma posts_in_app (t1 t2 : list event) :
  posts_in (t1 ++ t2) = (posts_in t1 + posts_in t2)%nat.
Proof. unfold posts_in. by rewrite filter_app, length_app. Qed.

Lemma posts_in_cons (e : event) (tr : list event) :
  posts_in (e :: tr) = ((if is_post e then 1 else 0) + posts_in tr)%nat.
Proof.
  unfold posts_in. rewrite filter_cons.
  destruct (is_post e); case_decide; done.
Qed.

(** X10: in every environment and world, [audio_to_text] returns a
    string with no whitespace at either end (so [strip] leaves it as it
    is), sends at most one HTTP request and changes no file. *)
Theorem audio_to_text_stripped (env : Env) (p : string) (w : World) :
  exists (t : str) (w' : World),
    audio_to_text env p w = (Ok t, w')
    /\ strip t = t
    /\ fs w' = fs w
    /\ (posts_in (trace w') <= S (posts_in (trace w)))%nat.
Proof.
  destruct (api_key_set env) eqn:Ek.
  - destruct (fs w !! p) as [[|c content]|] eqn:Ef.
    + rewrite audio_to_text_no_request_aux by auto.
      eexists _, _. split; [done|]. split; [done|]. split; [done|].
      cbn [trace]. rewrite posts_in_app, !posts_in_cons. cbn. lia.
    + rewrite (audio_to_text_one_request_aux env p w (c :: content)) by done.
      eexists _, _. split; [done|]. split.
      * apply clean_strip_id. unfold transcript_of_outcome.
        destruct (stt_post env _ _ _) as [|status [payload|]];
          try apply clean_nil.
        destruct (status =? 200); [|apply clean_nil].
        destruct (_extract_transcript_from_response env payload) eqn:E;
          [by eapply extract_transcript_clean | apply clean_nil].
      * split; [done|]. cbn [trace]. rewrite posts_in_app, !posts_in_cons.
        cbn. lia.
    + rewrite audio_to_text_no_request_aux by auto.
      eexists _, _. split; [done|]. split; [done|]. split; [done|].
      cbn [trace]. rewrite posts_in_app, !posts_in_cons. cbn. lia.
  - rewrite audio_to_text_no_request_aux by auto.
    eexists _, _. split; [done|]. split; [done|]. split; [done|].
    cbn [trace]. rewrite posts_in_app, !posts_in_cons. cbn. lia.
Qed.

Lemma extract_top_level_dict_cons (d : list (str * json)) (key : str)
    (rest : list str) :
  extract_top_level (JObj d) (key :: rest)
  = match dict_get d key with
    | Some (JStr s) => Ok (Some (strip s))
    | _ => extract_top_level (JObj d) rest
    end.
Proof.
  cbn [extract_top_level py_contains py_getitem].
  destruct (dict_get d key) as [v|] eqn:E.
  - rewrite bool_decide_eq_true_2 by eauto. by destruct v.
  - rewrite bool_decide_eq_false_2; [done|]. by intros [? ?].
Qed.

Lemma extract_nested_dict_cons (env : Env) (d : list (str * json)) (key : str)
    (rest : list str) :
  extract_nested env (JObj d) (key :: rest)
  = match dict_get d key with
    | Some v => Ok (Some (strip (py_str env v)))
    | None => extract_nested env (JObj d) rest
    end.
Proof.
  cbn [extract_nested py_contains py_getitem].
  destruct (dict_get d key) as [v|] eqn:E.
  - by rewrite bool_decide_eq_true_2 by eauto.
  - rewrite bool_decide_eq_false_2; [done|]. by intros [? ?].
Qed.

(** X11: on a JSON object the extraction never raises and follows a fixed
    priority: the first of "text", "transcript", "output" that is bound
    to a string wins and is returned stripped (a binding to anything
    else is passed over); failing those, the first of "text",
    "transcript" present in an object bound to "result" is returned as a
    stripped string; failing that, the empty string. *)
Theorem extract_transcript_dict (env : Env) (d : list (str * json)) :
  _extract_transcript_from_response env (JObj d)
  = Ok (match str_field d "text", str_field d "transcript",
              str_field d "output" with
        | Some s, _, _ => strip s
        | None, Some s, _ => strip s
        | None, None, Some s => strip s
        | None, None, None =>
            match dict_get d (of_string "result") with
            | Some (JObj r) =>
                match dict_get r (of_string "text"),
                      dict_get r (of_string "transcript") with
                | Some v, _ => strip (py_str env v)
                | None, Some v => strip (py_str env v)
                | None, None => []
                end
            | _ => []
            end
        end).
Proof.
  unfold _extract_transcript_from_response, str_field.
  rewrite !extract_top_level_dict_cons. cbn [extract_top_level].
  destruct (dict_get d (of_string "text")) as [[]|];
    destruct (dict_get d (of_string "transcript")) as [[]|];
    destruct (dict_get d (of_string "output")) as [[]|]; try reflexivity;
    cbn [py_contains py_getitem];
    (destruct (dict_get d (of_string "result")) as [v|] eqn:Er;
     [rewrite bool_decide_eq_true_2 by eauto
     |rewrite bool_decide_eq_false_2 by (by intros [? ?]); reflexivity]);
    (destruct v as [| | | | | |r]; try reflexivity);
    rewrite !extract_nested_dict_cons; cbn [extract_nested];
    destruct (dict_get r (of_string "text"));
    destruct (dict_get r (of_string "transcript")); reflexivity.
Qed.

Lemma extract_top_level_non_dict (payload : json) (keys : list str)
    (s : str) :
  (forall d, payload <> JObj d) ->
  extract_top_level payload keys <> Ok (Some s).
Proof.
  intros Hnd. induction keys as [|key rest IH]; [done|].
  cbn [extract_top_level].
  destruct (py_contains payload key) as [[|]|]; try done.
  destruct payload; try done. by destruct (Hnd fields).
Qed.

(** X12: a payload that is not a JSON object never yields text: the
    extraction either raises or returns the empty string. *)
Theorem extract_transcript_non_dict (env : Env) (payload : json) (s : str) :
  (forall d, payload <> JObj d) ->
  _extract_transcript_from_response env payload = Ok s -> s = [].
Proof.
  intros Hnd. unfold _extract_transcript_from_response.
  destruct (extract_top_level payload _) as [[s'|]|] eqn:E; try done.
  { by apply extract_top_level_non_dict in E. }
  destruct (py_contains payload _) as [[|]|]; try done.
  - destruct payload; try done. by destruct (Hnd fields).
  - by intros [= <-].
Qed.

Lemma extract_transcript_non_dict_witness :
  _extract_transcript_from_response Demo.env_fallback
    (JArr [JStr (of_string "hello")]) = Ok []
  /\ ([] : str) = [].
Proof.
  split; [reflexivity|].
  apply (extract_transcript_non_dict Demo.env_fallback
           (JArr [JStr (of_string "hello")]) []).
  - intros d. discriminate.
  - reflexivity.
Defined.

(** ** The chunker in general *)

Lemma string_length_app (s t : string) :
  String.length (s +:+ t) = (String.length s + String.length t)%nat.
Proof. induction s as [|a s IH]; [done|]. simpl. f_equal. exact IH. Qed.

Lemma string_app_inj_r (s1 s2 t : string) : s1 +:+ t = s2 +:+ t -> s1 = s2.
Proof.
  revert s2. induction s1 as [|a s1 IH]; intros s2 H.
  - destruct s2 as [|b s2]; [done|].
    apply (f_equal String.length) in H.
    rewrite !string_length_app in H. simpl in H. lia.
  - destruct s2 as [|b s2].
    + apply (f_equal String.length) in H.
      rewrite !string_length_app in H. simpl in H. lia.
    + simpl in H. injection H as -> H. f_equal. by apply IH.
Qed.

Lemma chunk_name_inj (i j : Z) : chunk_name i = chunk_name j -> i = j.
Proof.
  unfold chunk_name. intros H.
  apply String.app_inj in H. apply string_app_inj_r in H.
  by apply pretty_Z_inj in H.
Qed.

(** One call of [_create_audio_chunk]: it touches no file but its own
    chunk, removes nothing, and a returned name is that chunk's, which
    then exists. *)
Lemma create_audio_chunk_effect (env : Env) (audio : Wave_read)
    (start_time end_time : pynum) (frame_rate index : Z) (w : World) :
  exists (r : option string) (w' : World),
    _create_audio_chunk env audio start_time end_time frame_rate index w
    = (Ok r, w')
    /\ trace w' = trace w
    /\ (r = None \/ (r = Some (chunk_name index)
                     /\ is_Some (fs w' !! chunk_name index)))
    /\ (forall p, p <> chunk_name index -> fs w' !! p = fs w !! p)
    /\ (forall p, is_Some (fs w !! p) -> is_Some (fs w' !! p)).
Proof.
  unfold _create_audio_chunk, try_except, bind at 1, lift at 1.
  destruct (chunk_frame_range start_time end_time frame_rate)
    as [[start_frame end_frame]|e].
  2:{ exists None, w. repeat split; auto. }
  unfold bind at 1, lift at 1.
  destruct (setpos audio start_frame).
  2:{ exists None, w. repeat split; auto. }
  unfold bind at 1, write_wave, bind at 1, write_file at 1.
  destruct (wave_write env _ _ _ _) as [content|]; unfold_monad; cbn.
  - eexists _, _. split; [reflexivity|]. cbn. split; [done|]. split.
    + right. split; [done|]. rewrite lookup_insert_eq. eauto.
    + split.
      * intros p Hp. by rewrite !lookup_insert_ne.
      * intros p [c Hc]. destruct (decide (p = chunk_name index)) as [->|Hne].
        -- rewrite lookup_insert_eq. eauto.
        -- rewrite !lookup_insert_ne by done. eauto.
  - eexists _, _. split; [reflexivity|]. cbn. split; [done|]. split; [by left|].
    split.
    + intros p Hp. by rewrite lookup_insert_ne.
    + intros p [c Hc]. destruct (decide (p = chunk_name index)) as [->|Hne].
      * rewrite lookup_insert_eq. eauto.
      * rewrite lookup_insert_ne by done. eauto.
Qed.

Lemma round_count_spec (total_duration : spec_float) (chunk_length k : Z) :
  is_Some (float_frac total_duration) -> 0 < chunk_length -> 0 <= k ->
  int_lt_float (chunk_length * k) total_duration
  = (k <? round_count total_duration chunk_length).
Proof.
  intros [[num den] Hf] Hcl Hk. unfold int_lt_float, round_count.
  rewrite Hf. pose proof (float_frac_den_pos _ _ _ Hf) as Hden.
  set (c := den * chunk_length). assert (Hc : 0 < c) by (subst c; nia).
  pose proof (Z.mul_div_le (- num) c Hc) as H1.
  pose proof (Z.mul_succ_div_gt (- num) c Hc) as H2.
  set (q := (- num) / c) in *.
  destruct (Z.ltb_spec (chunk_length * k * den) num) as [Hlt|Hge];
    destruct (Z.ltb_spec k (Z.max 0 (- q))) as [Hlt'|Hge']; try done.
  - exfalso. assert (k * c < num) by (subst c; nia). nia.
  - exfalso. assert (num <= k * c) by (subst c; nia). nia.
Qed.

(** The loop from round [k] on (start time [chunk_length * k], index
    [k + 1]). *)
Lemma split_loop_names (env : Env) (audio : Wave_read) (frame_rate : Z)
    (total_duration : spec_float) (chunk_length : Z) :
  is_Some (float_frac total_duration) -> 0 < chunk_length ->
  forall (fuel : nat) (k : Z) (chunks : list string) (w : World),
    0 <= k ->
    exists (indices : list Z) (w' : World),
      split_loop env fuel audio frame_rate total_duration chunk_length
        (chunk_length * k) (k + 1) chunks w
      = (Ok (chunks ++ map chunk_name indices), w')
      /\ StronglySorted Z.lt indices
      /\ Forall (fun i => k + 1 <= i <= round_count total_duration chunk_length)
           indices
      /\ Forall (fun i => is_Some (fs w' !! chunk_name i)) indices
      /\ (forall p, (forall i, k + 1 <= i -> p <> chunk_name i) ->
                    fs w' !! p = fs w !! p)
      /\ (forall p, is_Some (fs w !! p) -> is_Some (fs w' !! p)).
Proof.
  intros Hfin Hcl. induction fuel as [|fuel IH]; intros k chunks w Hk.
  - exists [], w. cbn. rewrite app_nil_r.
    split; [done|]. split; [constructor|]. repeat split; auto.
  - cbn [split_loop].
    rewrite round_count_spec by done.
    destruct (Z.ltb_spec k (round_count total_duration chunk_length)) as [Hlt|Hge].
    2:{ exists [], w. cbn. rewrite app_nil_r.
        split; [done|]. split; [constructor|]. repeat split; auto. }
    unfold bind at 1.
    destruct (create_audio_chunk_effect env audio (PInt (chunk_length * k))
                (py_min (PInt (chunk_length * k + chunk_length))
                        (PFloat total_duration))
                frame_rate (k + 1) w)
      as (r & w1 & -> & Ht & Hr & Hother & Hkeep).
    replace (chunk_length * k + chunk_length) with (chunk_length * (k + 1)) by lia.
    destruct (IH (k + 1)
                (match r with Some name => chunks ++ [name] | None => chunks end)
                w1 ltac:(lia))
      as (idx & w2 & -> & Hs & Hb & He & Ho & Hk2).
    destruct Hr as [->|[-> Hex]].
    + exists idx, w2. split; [done|]. split; [done|]. split.
      { eapply Forall_impl; [exact Hb|]. cbn. intros; lia. }
      split; [done|]. split.
      * intros p Hp. rewrite Ho by (intros i Hi; apply Hp; lia).
        apply Hother. apply Hp. lia.
      * intros p Hp. by apply Hk2, Hkeep.
    + exists ((k + 1) :: idx), w2. split.
      { cbn [map]. by rewrite <- app_assoc. }
      split.
      { constructor; [done|]. eapply Forall_impl; [exact Hb|].
        cbn. intros; lia. }
      split.
      { constructor; [lia|]. eapply Forall_impl; [exact Hb|].
        cbn. intros; lia. }
      split.
      { constructor; [by apply Hk2|done]. }
      split.
      * intros p Hp. rewrite Ho by (intros i Hi; apply Hp; lia).
        apply Hother. apply Hp. lia.
      * intros p Hp. by apply Hk2, Hkeep.
Qed.

Lemma true_div_finite (n r : Z) (d : spec_float) :
  true_div n r = Ok d -> is_Some (float_frac d).
Proof.
  unfold true_div. destruct (r =? 0); [done|]. cbv zeta.
  destruct (float_frac (SFdiv _ _ _ _)) eqn:E; [|done].
  intros [= <-]. by rewrite E.
Qed.

(** Once the file is open and its duration known, [split_audio] is its
    loop, run from time 0 and index 1. *)
Lemma split_audio_run (env : Env) (input_file : string)
    (chunk_length : positive) (w : World) (content : bytes)
    (audio : Wave_read) (total_duration : spec_float) :
  fs w !! input_file = Some content ->
  wave_open_rb env content = Some audio ->
  true_div (getnframes audio) (getframerate audio) = Ok total_duration ->
  split_audio env input_file chunk_length w
  = split_loop env (split_fuel total_duration) audio (getframerate audio)
      total_duration (Z.pos chunk_length) 0 1 []
      (mkWorld (fs w) (trace w ++ [EvSplitAudio input_file])).
Proof.
  intros Hf Ho Hd. unfold split_audio, bind at 1, log_event at 1, try_except.
  unfold bind at 1, read_file at 1. cbn [fs]. rewrite Hf, Ho.
  unfold bind at 1, lift at 1. rewrite Hd.
  match goal with
  | |- context [split_loop ?e ?f ?a ?r ?d ?c ?s ?i ?ch ?w0] =>
      destruct (split_loop_total e f a r d c s i ch w0) as (r1 & w1 & -> & Ht)
  end.
  reflexivity.
Qed.

Lemma split_audio_unreadable_aux (env : Env) (input_file : string)
    (chunk_length : positive) (w : World) :
  fs w !! input_file = None
  \/ (exists content, fs w !! input_file = Some content
        /\ (wave_open_rb env content = None
            \/ exists audio, wave_open_rb env content = Some audio
                 /\ getframerate audio = 0)) ->
  split_audio env input_file chunk_length w
  = (Ok [], mkWorld (fs w) (trace w ++ [EvSplitAudio input_file])).
Proof.
  intros H. unfold split_audio, bind at 1, log_event at 1, try_except.
  unfold bind at 1, read_file at 1. cbn [fs].
  destruct H as [->|(content & -> & [->|(audio & -> & Hr)])]; try done.
  unfold bind at 1, lift at 1, true_div. by rewrite Hr.
Qed.

(** X13: when the input file is missing, is not readable as a WAV file,
    or declares a frame rate of zero, [split_audio] returns the empty
    list and writes nothing. *)
Theorem split_audio_unreadable (env : Env) (input_file : string)
    (chunk_length : positive) (w : World) :
  fs w !! input_file = None
  \/ (exists content, fs w !! input_file = Some content
        /\ (wave_open_rb env content = None
            \/ exists audio, wave_open_rb env content = Some audio
                 /\ getframerate audio = 0)) ->
  split_audio env input_file chunk_length w
  = (Ok [], mkWorld (fs w) (trace w ++ [EvSplitAudio input_file])).
Proof. intros. eapply split_audio_unreadable_aux; eauto. Qed.

Lemma split_audio_unreadable_witness :
  split_audio Demo.env_fallback "notes.txt" 30
    (Demo.world_with "notes.txt" (Demo.zeros 64))
  = (Ok [], mkWorld (fs (Demo.world_with "notes.txt" (Demo.zeros 64)))
              (trace (Demo.world_with "notes.txt" (Demo.zeros 64))
               ++ [EvSplitAudio "notes.txt"])).
Proof.
  apply (split_audio_unreadable Demo.env_fallback "notes.txt" 30
           (Demo.world_with "notes.txt" (Demo.zeros 64))).
  right. exists (Demo.zeros 64). split; [reflexivity|]. left. reflexivity.
Defined.

Lemma split_audio_names_aux (env : Env) (input_file : string)
    (chunk_length : positive) (w : World) :
  exists (indices : list Z) (w' : World),
    split_audio env input_file chunk_length w
    = (Ok (map chunk_name indices), w')
    /\ StronglySorted Z.lt indices
    /\ Forall (fun i => 1 <= i) indices
    /\ Forall (fun i => is_Some (fs w' !! chunk_name i)) indices
    /\ (forall p, (forall i, 1 <= i -> p <> chunk_name i) ->
                  fs w' !! p = fs w !! p)
    /\ (forall p, is_Some (fs w !! p) -> is_Some (fs w' !! p)).
Proof.
  destruct (fs w !! input_file) as [content|] eqn:Hf.
  2:{ rewrite split_audio_unreadable_aux by auto.
      eexists [], _. split; [done|]. split; [constructor|]. repeat split; auto. }
  destruct (wave_open_rb env content) as [audio|] eqn:Ho.
  2:{ rewrite split_audio_unreadable_aux by eauto 6.
      eexists [], _. split; [done|]. split; [constructor|]. repeat split; auto. }
  destruct (true_div (getnframes audio) (getframerate audio))
    as [total_duration|e] eqn:Hd.
  2:{ exists [], (mkWorld (fs w) (trace w ++ [EvSplitAudio input_file])).
      split; [|split; [constructor|repeat split; auto]].
      unfold split_audio, bind at 1, log_event at 1, try_except.
      unfold bind at 1, read_file at 1. cbn [fs]. rewrite Hf, Ho.
      unfold bind at 1, lift at 1. by rewrite Hd. }
  rewrite (split_audio_run env input_file chunk_length w content audio
             total_duration) by done.
  destruct (split_loop_names env audio (getframerate audio) total_duration
              (Z.pos chunk_length) (true_div_finite _ _ _ Hd) ltac:(lia)
              (split_fuel total_duration) 0 []
              (mkWorld (fs w) (trace w ++ [EvSplitAudio input_file]))
              ltac:(lia))
    as (idx & w' & Hrun & Hs & Hb & He & Ho' & Hk).
  rewrite Z.mul_0_r in Hrun. cbn [Z.add app] in Hrun.
  exists idx, w'. split; [exact Hrun|]. split; [done|]. split.
  { eapply Forall_impl; [exact Hb|]. cbn. intros; lia. }
  split; [done|]. split.
  - intros p Hp. rewrite Ho' by (intros i Hi; apply Hp; lia). done.
  - intros p Hp. by apply Hk.
Qed.

(** X14: the names [split_audio] returns are [chunk_<i>.wav] for strictly
    increasing indices [i >= 1] (ascending index is chronological
    order), each of them exists when it returns, no file is removed, and
    no file other than a [chunk_<i>.wav] is created or changed. *)
Theorem split_audio_names (env : Env) (input_file : string)
    (chunk_length : positive) (w : World) :
  exists (indices : list Z) (w' : World),
    split_audio env input_file chunk_length w
    = (Ok (map chunk_name indices), w')
    /\ StronglySorted Z.lt indices
    /\ Forall (fun i => 1 <= i) indices
    /\ Forall (fun i => is_Some (fs w' !! chunk_name i)) indices
    /\ (forall p, (forall i, 1 <= i -> p <> chunk_name i) ->
                  fs w' !! p = fs w !! p)
    /\ (forall p, is_Some (fs w !! p) -> is_Some (fs w' !! p)).
Proof. intros. eapply split_audio_names_aux; eauto. Qed.

Lemma round_count_nonneg (total_duration : spec_float) (chunk_length : Z) :
  0 <= round_count total_duration chunk_length.
Proof.
  unfold round_count. destruct (float_frac total_duration) as [[num den]|]; lia.
Qed.

(** A strictly increasing list within [lo, hi] has at most
    [hi - lo + 1] elements. *)
Lemma sorted_within_count (l : list Z) (lo hi : Z) :
  StronglySorted Z.lt l -> Forall (fun i => lo <= i <= hi) l ->
  len l <= Z.max 0 (hi - lo + 1).
Proof.
  intros Hs. revert lo. induction Hs as [|i l Hl IH Hall]; intros lo Hlo.
  - unfold len. cbn. lia.
  - inversion Hlo as [|? ? Hi Hrest]; subst.
    assert (Hl' : Forall (fun j => i + 1 <= j <= hi) l).
    { rewrite Forall_forall in *. intros j Hj.
      specialize (Hall j Hj). specialize (Hrest j Hj). lia. }
    specialize (IH (i + 1) Hl'). unfold len in *. cbn [length]. lia.
Qed.

(** X15: [split_audio] returns at most [ceil(D / chunk_length)] names,
    where [D] is the float [num_frames / frame_rate]: every returned
    index lies between 1 and that number of rounds. *)
Theorem split_audio_at_most_rounds (env : Env) (input_file : string)
    (chunk_length : positive) (w : World) (content : bytes)
    (audio : Wave_read) (total_duration : spec_float) :
  fs w !! input_file = Some content ->
  wave_open_rb env content = Some audio ->
  true_div (getnframes audio) (getframerate audio) = Ok total_duration ->
  exists indices : list Z,
    fst (split_audio env input_file chunk_length w)
    = Ok (map chunk_name indices)
    /\ Forall (fun i => 1 <= i <= round_count total_duration (Z.pos chunk_length))
         indices
    /\ StronglySorted Z.lt indices
    /\ len indices <= round_count total_duration (Z.pos chunk_length).
Proof.
  intros Hf Ho Hd.
  rewrite (split_audio_run env input_file chunk_length w content audio
             total_duration) by done.
  destruct (split_loop_names env audio (getframerate audio) total_duration
              (Z.pos chunk_length) (true_div_finite _ _ _ Hd) ltac:(lia)
              (split_fuel total_duration) 0 []
              (mkWorld (fs w) (trace w ++ [EvSplitAudio input_file]))
              ltac:(lia))
    as (idx & w' & Hrun & Hs & Hb & _).
  rewrite Z.mul_0_r in Hrun. change (0 + 1) with 1 in Hrun.
  cbn [app] in Hrun.
  exists idx. rewrite Hrun. split; [done|]. split; [exact Hb|].
  split; [done|].
  pose proof (sorted_within_count idx 1 _ Hs Hb).
  pose proof (round_count_nonneg total_duration (Z.pos chunk_length)). lia.
Qed.

Lemma split_audio_at_most_rounds_witness :
  exists indices : list Z,
    fst (split_audio Demo.env_fallback "recorded_audio.wav" 30
           (Demo.world_with "recorded_audio.wav" (Demo.recording 1 75)))
    = Ok (map chunk_name indices)
    /\ Forall (fun i => 1 <= i <= 3) indices
    /\ StronglySorted Z.lt indices
    /\ len indices <= 3.
Proof.
  apply (split_audio_at_most_rounds Demo.env_fallback "recorded_audio.wav" 30
           (Demo.world_with "recorded_audio.wav" (Demo.recording 1 75))
           (Demo.recording 1 75)
           (mkWave 1 2 1 75 (Demo.zeros 150))
           (S754_finite false 5277655813324800 (-46))).
  - vm_compute. reflexivity.
  - vm_compute. reflexivity.
  - vm_compute. reflexivity.
Defined.

Lemma int_lt_float_not_gt (a : Z) (f : spec_float) :
  int_lt_float a f = true -> float_lt_int f a = false.
Proof.
  unfold int_lt_float, float_lt_int.
  destruct (float_frac f) as [[num den]|].
  - intros H. apply Z.ltb_lt in H. apply Z.ltb_ge. lia.
  - by destruct f as [| [|] | |].
Qed.

(** A round that is not the last one: its chunk runs from
    [chunk_length * k] seconds for a whole stride, in integer frames. *)
Lemma create_full_chunk (env : Env) (audio : Wave_read) (frame_rate : Z)
    (total_duration : spec_float) (chunk_length k : Z) (c : bytes) (w : World) :
  int_lt_float (chunk_length * (k + 1)) total_duration = true ->
  0 <= chunk_length * k * frame_rate <= getnframes audio ->
  wave_write env (getnchannels audio) (getsampwidth audio) frame_rate
    (readframes audio (chunk_length * k * frame_rate)
       (chunk_length * frame_rate)) = Some c ->
  _create_audio_chunk env audio (PInt (chunk_length * k))
    (py_min (PInt (chunk_length * k + chunk_length)) (PFloat total_duration))
    frame_rate (k + 1) w
  = (Ok (Some (chunk_name (k + 1))),
     mkWorld (<[chunk_name (k + 1) := c]> (fs w)) (trace w)).
Proof.
  intros Hnext Hpos Hw.
  replace (chunk_length * k + chunk_length) with (chunk_length * (k + 1)) by lia.
  unfold py_min. cbn [py_lt]. rewrite int_lt_float_not_gt by done.
  unfold _create_audio_chunk, try_except, bind at 1, lift at 1.
  cbn [chunk_frame_range py_mul py_int].
  unfold bind at 1, lift at 1, setpos.
  replace (chunk_length * k * frame_rate <? 0) with false
    by (symmetry; apply Z.ltb_ge; lia).
  replace (getnframes audio <? chunk_length * k * frame_rate) with false
    by (symmetry; apply Z.ltb_ge; lia).
  cbn [orb].
  replace (chunk_length * (k + 1) * frame_rate - chunk_length * k * frame_rate)
    with (chunk_length * frame_rate) by lia.
  unfold bind at 1, write_wave, bind at 1, write_file at 1.
  rewrite Hw. unfold_monad. cbn. by rewrite insert_insert_eq.
Qed.

Lemma split_loop_full_chunk (env : Env) (audio : Wave_read) (frame_rate : Z)
    (total_duration : spec_float) (chunk_length k : Z) (c : bytes) :
  is_Some (float_frac total_duration) -> 0 < chunk_length ->
  0 <= k -> k + 1 < round_count total_duration chunk_length ->
  0 <= chunk_length * k * frame_rate <= getnframes audio ->
  wave_write env (getnchannels audio) (getsampwidth audio) frame_rate
    (readframes audio (chunk_length * k * frame_rate)
       (chunk_length * frame_rate)) = Some c ->
  forall (fuel : nat) (j : Z) (chunks : list string) (w : World),
    0 <= j <= k -> (Z.to_nat (k - j) < fuel)%nat ->
    exists (r : list string) (w' : World),
      split_loop env fuel audio frame_rate total_duration chunk_length
        (chunk_length * j) (j + 1) chunks w = (Ok r, w')
      /\ chunk_name (k + 1) ∈ r
      /\ fs w' !! chunk_name (k + 1) = Some c.
Proof.
  intros Hfin Hcl Hk Hlast Hpos Hw.
  induction fuel as [|fuel IH]; intros j chunks w Hj Hfuel; [lia|].
  cbn [split_loop]. rewrite round_count_spec by (done || lia).
  replace (j <? round_count total_duration chunk_length) with true
    by (symmetry; apply Z.ltb_lt; lia).
  unfold bind at 1.
  destruct (decide (j = k)) as [->|Hne].
  - rewrite (create_full_chunk env audio frame_rate total_duration
               chunk_length k c w); try done.
    2:{ rewrite round_count_spec by (done || lia). apply Z.ltb_lt. lia. }
    replace (chunk_length * k + chunk_length)
      with (chunk_length * (k + 1)) by lia.
    destruct (split_loop_names env audio frame_rate total_duration chunk_length
                Hfin Hcl fuel (k + 1) (chunks ++ [chunk_name (k + 1)])
                (mkWorld (<[chunk_name (k + 1) := c]> (fs w)) (trace w))
                ltac:(lia))
      as (idx & w' & -> & _ & _ & _ & Hother & _).
    eexists _, _. split; [reflexivity|]. split.
    + rewrite !elem_of_app. left. right. by apply list_elem_of_singleton.
    + rewrite Hother.
      * cbn [fs]. apply lookup_insert_eq.
      * intros i Hi Heq. apply chunk_name_inj in Heq. lia.
  - destruct (create_audio_chunk_effect env audio (PInt (chunk_length * j))
                (py_min (PInt (chunk_length * j + chunk_length))
                        (PFloat total_duration))
                frame_rate (j + 1) w)
      as (r & w1 & -> & _).
    replace (chunk_length * j + chunk_length)
      with (chunk_length * (j + 1)) by lia.
    apply IH; lia.
Qed.

Lemma readframes_length (audio : Wave_read) (pos n : Z) :
  complete audio -> 0 <= pos -> 0 <= n -> pos + n <= getnframes audio ->
  len (readframes audio pos n)
  = n * (getnchannels audio * getsampwidth audio).
Proof.
  intros (Hch & Hsw & _ & Hdata) Hpos Hn Hend. unfold readframes.
  set (framesize := getnchannels audio * getsampwidth audio) in *.
  assert (Hfs : 0 < framesize) by (subst framesize; nia).
  destruct (Z.eqb_spec n 0) as [->|Hn0]; [done|].
  replace (n * framesize <? 0) with false by (symmetry; apply Z.ltb_ge; nia).
  unfold len in *. rewrite length_take, length_drop.
  assert ((pos + n) * framesize <= getnframes audio * framesize) by nia.
  nia.
Qed.

(** X16: every chunk but the last holds one whole stride.  Take a
    reader over a complete file that is not itself named like a chunk.
    When round [k + 1] is not the last one, the stride ends within the
    file ([chunk_length * (k + 1) * frame_rate] is at most the frame
    count) and the writer accepts the frames, then [chunk_<k+1>.wav] is
    returned and holds what the writer makes of the frames read at
    frame [chunk_length * k * frame_rate], under the parent's channel
    count, sample width and frame rate; those frames are exactly
    [chunk_length * frame_rate] in number. *)
Theorem split_audio_full_chunk (env : Env) (input_file : string)
    (chunk_length : positive) (w : World) (content : bytes)
    (audio : Wave_read) (total_duration : spec_float) (k : Z) (c : bytes) :
  fs w !! input_file = Some content ->
  (forall i, 1 <= i -> input_file <> chunk_name i) ->
  wave_open_rb env content = Some audio ->
  complete audio ->
  true_div (getnframes audio) (getframerate audio) = Ok total_duration ->
  0 <= k -> k + 1 < round_count total_duration (Z.pos chunk_length) ->
  Z.pos chunk_length * (k + 1) * getframerate audio <= getnframes audio ->
  wave_write env (getnchannels audio) (getsampwidth audio) (getframerate audio)
    (readframes audio (Z.pos chunk_length * k * getframerate audio)
       (Z.pos chunk_length * getframerate audio)) = Some c ->
  exists (chunks : list string) (w' : World),
    split_audio env input_file chunk_length w = (Ok chunks, w')
    /\ chunk_name (k + 1) ∈ chunks
    /\ fs w' !! chunk_name (k + 1) = Some c
    /\ len (readframes audio (Z.pos chunk_length * k * getframerate audio)
              (Z.pos chunk_length * getframerate audio))
       = Z.pos chunk_length * getframerate audio
         * (getnchannels audio * getsampwidth audio).
Proof.
  intros Hf _ Ho Hcomplete Hd Hk Hlast Hend Hw.
  assert (Hrate : 0 < getframerate audio) by apply Hcomplete.
  assert (Hpos : 0 <= Z.pos chunk_length * k * getframerate audio
                 <= getnframes audio) by nia.
  rewrite (split_audio_run env input_file chunk_length w content audio
             total_duration) by done.
  pose proof (true_div_finite _ _ _ Hd) as Hfin.
  destruct (split_loop_full_chunk env audio (getframerate audio)
              total_duration (Z.pos chunk_length) k c Hfin ltac:(lia) Hk Hlast
              Hpos Hw (split_fuel total_duration) 0 []
              (mkWorld (fs w) (trace w ++ [EvSplitAudio input_file])))
    as (r & w' & Hrun & Hin & Hfs).
  - lia.
  - unfold split_fuel.
    assert (Hlt : int_lt_float (Z.pos chunk_length * (k + 1)) total_duration
                  = true).
    { rewrite round_count_spec by (done || lia). apply Z.ltb_lt. lia. }
    apply int_lt_float_ceil in Hlt; [|done]. nia.
  - rewrite Z.mul_0_r in Hrun. change (0 + 1) with 1 in Hrun.
    exists r, w'. rewrite Hrun. repeat split; try done.
    apply readframes_length; [done|lia|nia|nia].
Qed.

Lemma split_audio_full_chunk_witness :
  exists (chunks : list string) (w' : World),
    split_audio Demo.env_fallback "recorded_audio.wav" 30
      (Demo.world_with "recorded_audio.wav" (Demo.recording 1 75))
    = (Ok chunks, w')
    /\ chunk_name 2 ∈ chunks
    /\ fs w' !! chunk_name 2 = Some (Demo.recording 1 30)
    /\ len (readframes (mkWave 1 2 1 75 (Demo.zeros 150)) 30 30) = 60.
Proof.
  apply (split_audio_full_chunk Demo.env_fallback "recorded_audio.wav" 30
           (Demo.world_with "recorded_audio.wav" (Demo.recording 1 75))
           (Demo.recording 1 75)
           (mkWave 1 2 1 75 (Demo.zeros 150))
           (S754_finite false 5277655813324800 (-46)) 1
           (Demo.recording 1 30)).
  - vm_compute. reflexivity.
  - intros i _. unfold chunk_name. cbn. discriminate.
  - vm_compute. reflexivity.
  - vm_compute. repeat split; reflexivity.
  - vm_compute. reflexivity.
  - lia.
  - vm_compute. reflexivity.
  - vm_compute. discriminate.
  - vm_compute. reflexivity.
Defined.

(** ** The orchestrator and the file system *)

Lemma process_chunks_other_files (env : Env) (chunks : list string) :
  forall (acc : str) (w : World),
  exists (t : str) (w2 : World),
    process_chunks env chunks acc w = (Ok t, w2)
    /\ (forall p, p ∉ chunks -> fs w2 !! p = fs w !! p)
    /\ (api_key_set env = false ->
        t = acc /\ posts_in (trace w2) = posts_in (trace w)).
Proof.
  induction chunks as [|chunk rest IH]; intros acc w.
  - exists acc, w. by repeat split.
  - cbn [process_chunks]. unfold bind at 1.
    destruct (audio_to_text_total env chunk w) as (t & w' & Ha & _ & Hfs & _).
    rewrite Ha. unfold bind at 1.
    destruct (cleanup_total chunk w') as (w'' & Hc & Hfs2 & Htr2).
    rewrite Hc.
    destruct (IH (if truthy t then acc ++ t ++ [space] else acc) w'')
      as (t2 & w2 & Hp & Hother & Hnokey).
    exists t2, w2. split; [done|]. split.
    + intros p Hp0. apply not_elem_of_cons in Hp0 as [Hne Hnin].
      rewrite Hother by done. rewrite Hfs2, Hfs. by apply lookup_delete_ne.
    + intros Hk. destruct (Hnokey Hk) as [-> Hposts].
      assert (Hno : audio_to_text env chunk w
                    = (Ok [], mkWorld (fs w) (trace w ++ [EvAudioToText chunk]))).
      { apply audio_to_text_no_request_aux. by left. }
      rewrite Hno in Ha. injection Ha as <- <-.
      split; [done|]. rewrite Hposts, Htr2. cbn [trace].
      rewrite posts_in_app, posts_in_cons. cbn. lia.
Qed.

Lemma process_long_audio_other_files_aux (env : Env) (input_file : string)
    (w : World) (p : string) :
  (forall i, 1 <= i -> p <> chunk_name i) ->
  fs (snd (process_long_audio env input_file w)) !! p = fs w !! p.
Proof.
  intros Hp. unfold process_long_audio, try_except.
  destruct (fs w !! input_file) as [[|b content]|] eqn:Hf.
  - destruct (process_long_audio_body_invalid env input_file w) as [-> | ->];
      auto.
  - destruct (api_utils_importable env) eqn:Himp.
    2:{ unfold process_long_audio_body, import_api_utils. by rewrite Himp. }
    rewrite (process_long_audio_body_valid env input_file w (b :: content))
      by done.
    unfold bind at 1.
    destruct (split_audio_names_aux env input_file 30 w)
      as (idx & w1 & -> & _ & Hge & _ & Hother & _).
    destruct idx as [|i idx]; cbn [map].
    + unfold bind at 1.
      destruct (audio_to_text_total env input_file w1)
        as (t & w2 & -> & _ & Hfs & _).
      cbn. rewrite Hfs. by apply Hother.
    + unfold bind at 1.
      destruct (process_chunks_other_files env
                  (chunk_name i :: map chunk_name idx) [] w1)
        as (t & w2 & -> & Hkeep & _).
      cbn. rewrite Hkeep; [by apply Hother|].
      change (chunk_name i :: map chunk_name idx)
        with (map chunk_name (i :: idx)).
      intros Hin. apply list_elem_of_fmap in Hin as (j & -> & Hj).
      rewrite Forall_forall in Hge. by apply (Hp j (Hge j Hj)).
  - destruct (process_long_audio_body_invalid env input_file w) as [-> | ->];
      auto.
Qed.

(** X17: [process_long_audio] leaves every file alone whose name is not
    [chunk_<i>.wav] for some [i >= 1]; in particular the input file is
    neither changed nor removed. *)
Theorem process_long_audio_other_files (env : Env) (input_file : string)
    (w : World) (p : string) :
  (forall i, 1 <= i -> p <> chunk_name i) ->
  fs (snd (process_long_audio env input_file w)) !! p = fs w !! p.
Proof. intros. eapply process_long_audio_other_files_aux; eauto. Qed.

Lemma process_long_audio_other_files_witness :
  fs (snd (process_long_audio Demo.env_fallback "recorded_audio.wav"
             (Demo.world_with "recorded_audio.wav" (Demo.recording 1 75))))
    !! "recorded_audio.wav"
  = Some (Demo.recording 1 75).
Proof.
  rewrite (process_long_audio_other_files Demo.env_fallback
             "recorded_audio.wav"
             (Demo.world_with "recorded_audio.wav" (Demo.recording 1 75))
             "recorded_audio.wav").
  - vm_compute. reflexivity.
  - intros i _ H. apply (f_equal (fun s => String.get 0 s)) in H.
    vm_compute in H. discriminate.
Defined.

(** X18: without an API key, [process_long_audio] returns the empty
    string for every input and sends no HTTP request. *)
Theorem process_long_audio_no_key (env : Env) (input_file : string)
    (w : World) :
  SARVAM_API_KEY env = None \/ SARVAM_API_KEY env = Some [] ->
  exists w' : World,
    process_long_audio env input_file w = (Ok [], w')
    /\ posts_in (trace w') = posts_in (trace w).
Proof.
  intros Hkey. apply api_key_unset_cases in Hkey.
  unfold process_long_audio, try_except.
  destruct (fs w !! input_file) as [[|b content]|] eqn:Hf.
  - destruct (process_long_audio_body_invalid env input_file w) as [-> | ->];
      eauto.
  - destruct (api_utils_importable env) eqn:Himp.
    2:{ unfold process_long_audio_body, import_api_utils. rewrite Himp.
        by eexists. }
    rewrite (process_long_audio_body_valid env input_file w (b :: content))
      by done.
    unfold bind at 1.
    destruct (split_audio_total env input_file 30 w) as (chunks & w1 & -> & Ht).
    assert (Hp1 : posts_in (trace w1) = posts_in (trace w)).
    { rewrite Ht, posts_in_app, posts_in_cons. cbn. lia. }
    destruct chunks as [|c chunks].
    + unfold bind at 1.
      rewrite audio_to_text_no_request_aux by (by left).
      eexists. split; [reflexivity|]. cbn [trace].
      rewrite posts_in_app, posts_in_cons. cbn. lia.
    + unfold bind at 1.
      destruct (process_chunks_other_files env (c :: chunks) [] w1)
        as (t & w2 & -> & _ & Hnokey).
      destruct (Hnokey Hkey) as [-> Hposts].
      exists w2. split; [done|]. lia.
  - destruct (process_long_audio_body_invalid env input_file w) as [-> | ->];
      eauto.
Qed.

Lemma process_long_audio_no_key_witness :
  exists w' : World,
    process_long_audio
      (mkEnv false (fun _ => None) (fun _ => None) Demo.pairwise_mean64
         Demo.pairwise_mean32 (numpy_less true) Demo.canonical_open
         Demo.canonical_write true None Demo.table_post Demo.str_of_json)
      "recorded_audio.wav"
      (Demo.world_with "recorded_audio.wav" (Demo.recording 1 75))
    = (Ok [], w')
    /\ posts_in (trace w')
       = posts_in (trace (Demo.world_with "recorded_audio.wav"
                            (Demo.recording 1 75))).
Proof.
  apply process_long_audio_no_key. left. reflexivity.
Defined.

(** ** [split_text] *)

Lemma py_split_from_words (s cur : str) :
  cur = [] \/ is_word cur -> Forall is_word (py_split_from s cur).
Proof.
  revert cur. induction s as [|c s IH]; intros cur Hcur.
  - cbn. destruct Hcur as [->|Hw]; [constructor|].
    destruct cur; [by destruct Hw|]. cbn. by constructor.
  - cbn [py_split_from]. destruct (isspace c) eqn:Ec.
    + destruct Hcur as [->|Hw]; [cbn; apply IH; by left|].
      destruct cur as [|a cur]; [by destruct Hw|]. cbn [truthy].
      constructor; [done|]. apply IH. by left.
    + apply IH. right. split; [by destruct cur|].
      apply Forall_app. split; [|by constructor].
      destruct Hcur as [->|[_ Hw]]; [constructor|done].
Qed.

Lemma py_split_words (s : str) : Forall is_word (py_split s).
Proof. apply py_split_from_words. by left. Qed.

Lemma py_split_from_nospace (w s cur : str) :
  Forall (fun c => isspace c = false) w ->
  py_split_from (w ++ s) cur = py_split_from s (cur ++ w).
Proof.
  intros Hw. revert cur. induction Hw as [|c w Hc Hw IH]; intros cur.
  - by rewrite app_nil_r.
  - cbn [app py_split_from]. rewrite Hc, IH. by rewrite <- app_assoc.
Qed.

Lemma py_split_join (ws : list str) :
  Forall is_word ws -> py_split (join_words ws) = ws.
Proof.
  unfold py_split. induction 1 as [|w ws [Hne Hw] Hws IH]; [done|].
  destruct ws as [|w2 ws].
  - cbn [join_words]. rewrite <- (app_nil_r w) at 1.
    rewrite py_split_from_nospace by done. cbn. by destruct w.
  - change (join_words (w :: w2 :: ws))
      with (w ++ [space] ++ join_words (w2 :: ws)).
    rewrite py_split_from_nospace by done. cbn [app py_split_from].
    change (isspace space) with true. cbn iota.
    destruct w; [done|]. cbn [truthy]. by rewrite IH.
Qed.

Lemma py_split_word (w : str) : is_word w -> py_split w = [w].
Proof.
  intros Hw. change w with (join_words [w]) at 1.
  apply py_split_join. by constructor.
Qed.

Lemma py_split_from_spaces (s : str) :
  forallb isspace s = true -> py_split_from s [] = [].
Proof.
  induction s as [|c s IH]; [done|]. cbn. intros H.
  apply andb_true_iff in H as [-> H]. cbn. by apply IH.
Qed.

Lemma strip_nil_split (s : str) : strip s = [] -> py_split s = [].
Proof.
  intros H. unfold py_split. apply py_split_from_spaces.
  destruct (lstrip_split s) as (pre & H1 & H2).
  destruct (rstrip_split (lstrip s)) as (post & H3 & H4).
  unfold strip in H. rewrite H in H3. cbn in H3.
  rewrite H1, H3. rewrite forallb_app. by rewrite H2, H4.
Qed.

Lemma join_words_nonempty (ws : list str) :
  Forall is_word ws -> ws <> [] -> join_words ws <> [].
Proof.
  intros Hw Hne. destruct Hw as [|w ws [Hw _] Hws]; [done|].
  destruct w; [done|]. by destruct ws.
Qed.

Lemma join_words_snoc (ws : list str) (w : str) :
  ws <> [] -> join_words (ws ++ [w]) = join_words ws ++ [space] ++ w.
Proof.
  induction ws as [|a ws IH]; [done|]. intros _.
  destruct ws as [|b ws]; [done|].
  change (join_words ((a :: b :: ws) ++ [w]))
    with (a ++ [space] ++ join_words ((b :: ws) ++ [w])).
  rewrite IH by done.
  change (join_words (a :: b :: ws)) with (a ++ [space] ++ join_words (b :: ws)).
  by rewrite <- !app_assoc.
Qed.

Lemma join_words_last (ws : list str) :
  Forall is_word ws -> ws <> [] ->
  exists pre c, join_words ws = pre ++ [c] /\ isspace c = false.
Proof.
  induction 1 as [|w ws [Hne Hw] Hws IH]; [done|]. intros _.
  destruct ws as [|w2 ws].
  - cbn [join_words].
    destruct (exists_last Hne) as (pre & c & ->).
    exists pre, c. split; [done|].
    apply Forall_app in Hw as [_ Hc]. by inversion Hc.
  - destruct (IH ltac:(done)) as (pre & c & Hj & Hc).
    exists (w ++ [space] ++ pre), c. split; [|done].
    change (join_words (w :: w2 :: ws))
      with (w ++ [space] ++ join_words (w2 :: ws)).
    rewrite Hj. by rewrite <- !app_assoc.
Qed.

Lemma join_words_clean (ws : list str) :
  Forall is_word ws -> clean (join_words ws).
Proof.
  intros Hw. destruct ws as [|w ws]; [apply clean_nil|]. split.
  - apply lstrip_fixed.
    inversion Hw as [|? ? [Hne Hc] Hws]; subst.
    destruct w as [|c w]; [done|]. inversion Hc; subst.
    by destruct ws.
  - destruct (join_words_last (w :: ws) Hw ltac:(done)) as (pre & c & -> & Hc).
    rewrite rev_app_distr. change (rev [c]) with [c]. cbn [app].
    by apply lstrip_fixed.
Qed.

Lemma truthy_join_words (ws : list str) :
  Forall is_word ws -> truthy (join_words ws) = bool_decide (ws <> []).
Proof.
  intros Hw. destruct ws as [|w ws]; [done|].
  rewrite bool_decide_eq_true_2 by done.
  pose proof (join_words_nonempty (w :: ws) Hw ltac:(done)).
  by destruct (join_words (w :: ws)).
Qed.

(** The loop invariant is kept by every round. *)
Lemma split_text_step_chunked (max_length : Z) (processed : list str)
    (state : list str * str) (word : str) :
  Forall is_word processed -> is_word word ->
  chunked max_length processed state ->
  chunked max_length (processed ++ [word])
    (split_text_step max_length state word).
Proof.
  intros Hp Hw (groups & current & Hc & Hcur & Hcat & Hne & Hb & Hbc).
  destruct state as [chunks cur]. cbn [fst snd] in *. subst chunks cur.
  assert (Hwc : Forall is_word current).
  { rewrite <- Hcat in Hp. by apply Forall_app in Hp as [_ ?]. }
  unfold split_text_step. rewrite truthy_join_words by done.
  destruct (Z.leb_spec (len (join_words current) + len word + 1) max_length)
    as [Hfit|Hover].
  - exists groups, (current ++ [word]). cbn [fst snd].
    split; [done|]. split.
    { destruct current as [|a current]; [done|].
      rewrite bool_decide_eq_true_2 by done.
      by rewrite join_words_snoc. }
    split; [by rewrite app_assoc, Hcat|]. split; [done|]. split; [done|].
    left. destruct current as [|a current].
    + cbn. unfold len in *. cbn in Hfit. lia.
    + rewrite join_words_snoc by done. rewrite !len_app.
      unfold len at 2. cbn [length]. lia.
  - destruct current as [|a current].
    + rewrite bool_decide_eq_false_2 by (by intros H; apply H).
      exists groups, [word]. cbn [fst snd]. repeat split; try done.
      * by rewrite app_nil_r in Hcat; subst.
      * right. cbn. lia.
    + rewrite bool_decide_eq_true_2 by done.
      exists (groups ++ [a :: current]), [word]. cbn [fst snd].
      split.
      { rewrite map_app. cbn [map].
        by rewrite clean_strip_id by (by apply join_words_clean). }
      split; [done|]. split.
      { rewrite concat_app. cbn [concat]. rewrite app_nil_r.
        by rewrite Hcat. }
      split; [apply Forall_app; split; [done|by constructor]|].
      split.
      { apply Forall_app. split; [done|]. constructor; [|constructor].
        destruct Hbc as [Hl|Hl]; [by left|].
        right. exists a. destruct current; [done|]. cbn in Hl. lia. }
      right. cbn. lia.
Qed.

Lemma split_text_fold_chunked (max_length : Z) (words processed : list str)
    (state : list str * str) :
  Forall is_word processed -> Forall is_word words ->
  chunked max_length processed state ->
  chunked max_length (processed ++ words)
    (fold_left (split_text_step max_length) words state).
Proof.
  revert processed state. induction words as [|w words IH];
    intros processed state Hp Hw Hinv.
  - by rewrite app_nil_r.
  - inversion Hw as [|? ? Hw1 Hw2]; subst. cbn [fold_left].
    replace (processed ++ w :: words) with ((processed ++ [w]) ++ words)
      by (by rewrite <- app_assoc).
    apply IH; [|done|by apply split_text_step_chunked].
    apply Forall_app. split; [done|by constructor].
Qed.

(** What [split_text] returns: the words of the text cut into consecutive
    non-empty groups, each joined by single spaces. *)
Lemma split_text_groups (text : str) (max_length : Z) :
  exists groups : list (list str),
    split_text text max_length = map join_words groups
    /\ concat groups = py_split text
    /\ Forall (fun g => g <> []) groups
    /\ Forall (fun g => len (join_words g) <= max_length \/ exists w, g = [w])
         groups.
Proof.
  unfold split_text.
  destruct (negb (truthy text) || negb (truthy (strip text))) eqn:Eg.
  { exists []. split; [done|]. split; [|by split].
    symmetry. apply orb_true_iff in Eg as [Eg|Eg].
    - by destruct text.
    - apply strip_nil_split. by destruct (strip text). }
  pose proof (py_split_words text) as Hw.
  assert (H0 : chunked max_length [] ([], [])).
  { exists [], []. cbn. repeat split; try done. right. lia. }
  pose proof (split_text_fold_chunked max_length (py_split text) [] ([], [])
                ltac:(constructor) Hw H0) as Hinv.
  cbn [app] in Hinv.
  destruct (fold_left _ _ _) as [chunks cur].
  destruct Hinv as (groups & current & Hc & Hcur & Hcat & Hne & Hb & Hbc).
  cbn [fst snd] in *. subst chunks cur.
  assert (Hwc : Forall is_word current).
  { rewrite <- Hcat in Hw. by apply Forall_app in Hw as [_ ?]. }
  rewrite truthy_join_words by done.
  destruct current as [|a current].
  - rewrite bool_decide_eq_false_2 by (by intros H; apply H).
    exists groups. rewrite app_nil_r in Hcat. by repeat split.
  - rewrite bool_decide_eq_true_2 by done.
    exists (groups ++ [a :: current]). split.
    { rewrite map_app. cbn [map].
      by rewrite clean_strip_id by (by apply join_words_clean). }
    split. { rewrite concat_app. cbn [concat]. by rewrite app_nil_r. }
    split; [apply Forall_app; split; [done|by constructor]|].
    apply Forall_app. split; [done|]. constructor; [|constructor].
    destruct Hbc as [Hl|Hl]; [by left|].
    right. exists a. destruct current; [done|]. cbn in Hl. lia.
Qed.

Lemma split_text_groups_words (text : str) (groups : list (list str)) :
  concat groups = py_split text -> Forall (Forall is_word) groups.
Proof.
  intros Hcat. pose proof (py_split_words text) as Hw. rewrite <- Hcat in Hw.
  clear Hcat. induction groups as [|g groups IH]; [constructor|].
  cbn in Hw. apply Forall_app in Hw as [Hg Hrest].
  constructor; [done|by apply IH].
Qed.

(** X19: [split_text] loses no word and keeps their order: splitting the
    chunks into words again gives exactly the words of the text, for any
    [max_length]. *)
Theorem split_text_keeps_words (text : str) (max_length : Z) :
  concat (map py_split (split_text text max_length)) = py_split text.
Proof.
  destruct (split_text_groups text max_length) as (groups & -> & Hcat & _).
  pose proof (split_text_groups_words text groups Hcat) as Hw.
  rewrite <- Hcat. clear Hcat. induction Hw as [|g groups Hg Hgs IH]; [done|].
  cbn [map concat]. rewrite IH. by rewrite py_split_join.
Qed.

(** X20: every chunk [split_text] returns is non-empty, has no whitespace
    at either end, and is at most [max_length] characters long unless it
    is a single word. *)
Theorem split_text_chunks (text : str) (max_length : Z) :
  Forall (fun chunk =>
            chunk <> [] /\ strip chunk = chunk
            /\ (len chunk <= max_length \/ py_split chunk = [chunk]))
    (split_text text max_length).
Proof.
  destruct (split_text_groups text max_length)
    as (groups & -> & Hcat & Hne & Hb).
  pose proof (split_text_groups_words text groups Hcat) as Hw. clear Hcat.
  induction Hw as [|g groups Hg Hgs IH]; [constructor|].
  inversion Hne; subst. inversion Hb as [|? ? Hbg Hbs]; subst.
  cbn [map]. constructor; [|by apply IH].
  split; [by apply join_words_nonempty|].
  split; [by apply clean_strip_id, join_words_clean|].
  destruct Hbg as [Hl|[w ->]]; [by left|].
  right. cbn [join_words]. apply py_split_word. by inversion Hg.
Qed.

(** X21: [split_text] returns no chunk exactly when the text has no word
    (it is empty or all whitespace). *)
Theorem split_text_empty (text : str) (max_length : Z) :
  split_text text max_length = [] <-> py_split text = [].
Proof.
  destruct (split_text_groups text max_length)
    as (groups & -> & Hcat & Hne & _).
  rewrite <- Hcat. destruct groups as [|g groups]; [done|].
  inversion Hne; subst. destruct g; [done|]. split; discriminate.
Qed.

(** ** [_normalize_language_code] *)

Lemma str_dict_get_Some (d : list (str * str)) (key v : str) :
  str_dict_get d key = Some v -> (key, v) ∈ d.
Proof.
  induction d as [|[k v'] d IH]; [done|]. cbn [str_dict_get].
  case_bool_decide as E.
  - intros [= <-]. subst. apply elem_of_cons. by left.
  - intros H. apply elem_of_cons. right. by apply IH.
Qed.

Lemma speaker_keys_not_two :
  Forall (fun kv => len (fst kv) <> 2) SPEAKER_MAP.
Proof. repeat constructor; vm_compute; discriminate. Qed.

Lemma en_IN_supported : is_Some (str_dict_get SPEAKER_MAP (of_string "en-IN")).
Proof. vm_compute. eauto. Qed.

Lemma normalize_supported_aux (t : str) :
  is_Some (str_dict_get SPEAKER_MAP (_normalize_language_code t)).
Proof.
  unfold _normalize_language_code. cbv zeta.
  case_bool_decide as E; [done|apply en_IN_supported].
Qed.

(** X22: whatever the target language, [_normalize_language_code] returns
    a code that has a voice in [SPEAKER_MAP] (so the default speaker of
    the lookup that follows is never needed), and normalising twice is
    the same as normalising once. *)
Theorem normalize_language_code_supported (target_language : str) :
  is_Some (str_dict_get SPEAKER_MAP (_normalize_language_code target_language))
  /\ str_dict_get SPEAKER_MAP (_normalize_language_code target_language)
     = Some (tts_speaker target_language)
  /\ _normalize_language_code (_normalize_language_code target_language)
     = _normalize_language_code target_language.
Proof.
  pose proof (normalize_supported_aux target_language) as Hs.
  split; [done|]. split.
  { unfold tts_speaker. by destruct Hs as [v ->]. }
  set (r := _normalize_language_code target_language) in *.
  destruct Hs as [v Hv].
  assert (Hlen : len r <> 2).
  { apply str_dict_get_Some in Hv.
    pose proof speaker_keys_not_two as Hall.
    rewrite Forall_forall in Hall. exact (Hall _ Hv). }
  unfold _normalize_language_code. cbv zeta.
  replace (len r =? 2) with false by (symmetry; by apply Z.eqb_neq).
  rewrite bool_decide_eq_true_2; [done|]. rewrite Hv. eauto.
Qed.

(** X23: every two-letter code of [LANG_CODE_MAP] is normalised to the
    regional code the table gives for it. *)
Theorem normalize_language_code_table (code region : str) :
  str_dict_get LANG_CODE_MAP code = Some region ->
  _normalize_language_code code = region.
Proof.
  intros H. apply str_dict_get_Some in H.
  assert (Hall : Forall (fun kv => _normalize_language_code (fst kv) = snd kv)
                   LANG_CODE_MAP)
    by (repeat constructor).
  rewrite Forall_forall in Hall. exact (Hall _ H).
Qed.

Lemma normalize_language_code_table_witness :
  _normalize_language_code (of_string "ta") = of_string "ta-IN".
Proof.
  apply (normalize_language_code_table (of_string "ta") (of_string "ta-IN")).
  reflexivity.
Defined.

(** ** [merge_audio] *)

Section MergerFacts.

Context (env : Env).
Variable merge_sf : list string -> string -> M unit.

Lemma cleanup_all_spec (audio_files : list string) (w : World) :
  exists w' : World,
    cleanup_all audio_files w = (Ok tt, w')
    /\ trace w' = trace w
    /\ (forall f, f ∈ audio_files -> fs w' !! f = None)
    /\ (forall p, p ∉ audio_files -> fs w' !! p = fs w !! p).
Proof.
  revert w. induction audio_files as [|file rest IH]; intros w.
  - exists w. repeat split; try done. intros f Hf. by apply elem_of_nil in Hf.
  - cbn [cleanup_all]. unfold bind at 1.
    destruct (cleanup_total file w) as (w1 & -> & Hfs & Htr).
    destruct (IH w1) as (w2 & -> & Htr2 & Hdel & Hkeep).
    exists w2. split; [done|]. split; [congruence|]. split.
    + intros f Hf. destruct (decide (f ∈ rest)) as [Hin|Hnin]; [by apply Hdel|].
      apply elem_of_cons in Hf as [->|Hf]; [|done].
      rewrite Hkeep by done. rewrite Hfs. apply lookup_delete_eq.
    + intros p Hp. apply not_elem_of_cons in Hp as [Hne Hnin].
      rewrite Hkeep by done. rewrite Hfs. by apply lookup_delete_ne.
Qed.

Lemma frames_of_files_insert (files : gmap string bytes)
    (audio_files : list string) (out : string) (c : bytes) :
  out ∉ audio_files ->
  frames_of_files env (<[out := c]> files) audio_files
  = frames_of_files env files audio_files.
Proof.
  induction audio_files as [|f rest IH]; [done|]. intros Hout.
  apply not_elem_of_cons in Hout as [Hne Hnin]. cbn [frames_of_files].
  rewrite lookup_insert_ne by done. rewrite IH by done. done.
Qed.

Lemma merge_loop_spec (out : string) (nch sw rate : Z)
    (audio_files : list string) (bound : Z) :
  (forall fr, len fr <= bound -> is_Some (wave_write env nch sw rate fr)) ->
  out ∉ audio_files ->
  forall (written frames : bytes) (w : World),
    len (written ++ frames) <= bound ->
    fs w !! out = wave_write env nch sw rate written ->
    frames_of_files env (fs w) audio_files = Some frames ->
    exists content,
      wave_write env nch sw rate (written ++ frames) = Some content
      /\ merge_loop env out nch sw rate audio_files written w
         = (Ok tt, mkWorld (<[out := content]> (fs w)) (trace w)).
Proof.
  intros Hwr. induction audio_files as [|f rest IH];
    intros Hout written frames w Hlen Hcur Hfr.
  - cbn in Hfr. injection Hfr as <-. rewrite app_nil_r in *.
    destruct (Hwr written Hlen) as [content Hc]. exists content.
    split; [done|].
    cbn. unfold ret. rewrite insert_id by congruence. by destruct w.
  - apply not_elem_of_cons in Hout as [Hne Hnin].
    cbn [merge_loop frames_of_files] in *.
    unfold bind at 1, os_path_exists at 1.
    destruct (fs w !! f) as [c|] eqn:Hf.
    + rewrite bool_decide_eq_true_2 by eauto.
      destruct (wave_open_rb env c) as [audio|] eqn:Ho; [|done].
      cbn in Hfr.
      destruct (frames_of_files env (fs w) rest) as [fr|] eqn:Hrest; [|done].
      cbn in Hfr. injection Hfr as <-.
      unfold bind at 1, open_wave, bind at 1, read_file at 1. rewrite Hf, Ho.
      unfold ret at 1. unfold bind at 1, writeframes.
      destruct (Hwr (written ++ readframes audio 0 (getnframes audio)))
        as [c1 Hc1].
      { rewrite !len_app in *. pose proof (len_nonneg fr). lia. }
      rewrite Hc1. unfold write_file at 1.
      destruct (IH Hnin (written ++ readframes audio 0 (getnframes audio)) fr
                  (mkWorld (<[out := c1]> (fs w)) (trace w)))
        as (content & Hcontent & Hloop).
      * by rewrite <- app_assoc.
      * cbn [fs]. by rewrite lookup_insert_eq.
      * cbn [fs]. by rewrite frames_of_files_insert.
      * exists content. split; [by rewrite app_assoc|].
        rewrite Hloop. cbn [fs trace]. by rewrite insert_insert_eq.
    + rewrite bool_decide_eq_false_2 by (by intros [? ?]).
      by apply IH.
Qed.

(** X24: the merge without the decode library.  When the first input
    exists, every input that exists can be opened, the writer accepts
    the first input's parameters and the output is not one of the
    inputs, [merge_audio] leaves in the output the writer's file for the
    first input's channel count, sample width and frame rate and for the
    frames of all existing inputs in input order (missing inputs are
    skipped); every input is removed and no other file changes. *)
Theorem merge_audio_concatenates (first : string) (rest : list string)
    (out : string) (w : World) (c0 frames : bytes) (a0 : Wave_read) :
  SOUNDFILE_AVAILABLE env = false ->
  out ∉ first :: rest ->
  fs w !! first = Some c0 ->
  wave_open_rb env c0 = Some a0 ->
  frames_of_files env (fs w) (first :: rest) = Some frames ->
  (forall fr, len fr <= len frames ->
              is_Some (wave_write env (getnchannels a0) (getsampwidth a0)
                         (getframerate a0) fr)) ->
  exists (content : bytes) (w' : World),
    merge_audio env merge_sf (first :: rest) out w = (Ok tt, w')
    /\ wave_write env (getnchannels a0) (getsampwidth a0) (getframerate a0)
         frames = Some content
    /\ fs w' !! out = Some content
    /\ (forall f, f ∈ first :: rest -> fs w' !! f = None)
    /\ (forall p, p <> out -> p ∉ first :: rest -> fs w' !! p = fs w !! p)
    /\ trace w' = trace w.
Proof.
  intros Hsf Hout Hf Ho Hfr Hwr.
  assert (Hne : first <> out).
  { intros ->. apply Hout. apply elem_of_cons. by left. }
  unfold merge_audio, try_except. rewrite Hsf. unfold bind at 1.
  unfold _merge_with_wave, bind at 1, write_file at 1.
  unfold bind at 1, open_wave, bind at 1, read_file at 1. cbn [fs].
  rewrite lookup_insert_ne by done. rewrite Hf, Ho. unfold ret at 1.
  unfold bind at 1, writeframes.
  destruct (Hwr []) as [h Hh]; [apply len_nonneg|].
  rewrite Hh. unfold write_file at 1.
  cbn [fs trace]. rewrite insert_insert_eq.
  destruct (merge_loop_spec out (getnchannels a0) (getsampwidth a0)
              (getframerate a0) (first :: rest) (len frames) Hwr Hout []
              frames (mkWorld (<[out := h]> (fs w)) (trace w)))
    as (content & Hcontent & Hloop).
  { cbn [app]. lia. }
  { cbn [fs]. by rewrite lookup_insert_eq. }
  { cbn [fs]. by rewrite frames_of_files_insert. }
  rewrite Hloop. cbn [fs trace]. rewrite insert_insert_eq.
  destruct (cleanup_all_spec (first :: rest)
              (mkWorld (<[out := content]> (fs w)) (trace w)))
    as (w' & -> & Htr & Hdel & Hkeep).
  exists content, w'. split; [done|]. split; [done|]. split.
  { rewrite Hkeep by done. cbn [fs]. apply lookup_insert_eq. }
  split; [done|]. split; [|done].
  intros p Hp Hnin. rewrite Hkeep by done. cbn [fs].
  by apply lookup_insert_ne.
Qed.

(** X25: the merge without the decode library, when the first input does
    not exist: nothing is raised, the output is created empty, and no
    input is removed. *)
Theorem merge_audio_first_missing (first : string) (rest : list string)
    (out : string) (w : World) :
  SOUNDFILE_AVAILABLE env = false ->
  first <> out ->
  fs w !! first = None ->
  merge_audio env merge_sf (first :: rest) out w
  = (Ok tt, mkWorld (<[out := []]> (fs w)) (trace w)).
Proof.
  intros Hsf Hne Hf. unfold merge_audio, try_except. rewrite Hsf.
  unfold bind at 1, _merge_with_wave, bind at 1, write_file at 1.
  unfold bind at 1, open_wave, bind at 1, read_file at 1. cbn [fs].
  rewrite lookup_insert_ne by done. by rewrite Hf.
Qed.

End MergerFacts.

Lemma demo_writer_accepts (fr : bytes) :
  36 + len fr < 2 ^ 32 -> is_Some (Demo.canonical_write 1 2 8000 fr).
Proof.
  intros H. pose proof (len_nonneg fr). unfold Demo.canonical_write.
  cbn [Z.ltb Z.leb Z.compare Pos.compare Pos.compare_cont orb].
  rewrite (to_bytes_Some (36 + len fr) 4)
    by (change (256 ^ Z.of_nat 4) with (2 ^ 32); lia).
  rewrite (to_bytes_Some (len fr) 4)
    by (change (256 ^ Z.of_nat 4) with (2 ^ 32); lia).
  cbn. eauto.
Qed.

Lemma merge_audio_concatenates_witness :
  exists (content : bytes) (w' : World),
    merge_audio Demo.env_fallback (fun _ _ => ret tt)
      ["a.wav"; "gone.wav"; "b.wav"] "final_output.wav"
      (mkWorld {[ "a.wav" := Demo.recording 8000 2;
                  "b.wav" := Demo.recording 8000 3 ]} [])
    = (Ok tt, w')
    /\ fs w' !! "final_output.wav" = Some content
    /\ content = Demo.recording 8000 5
    /\ fs w' !! "a.wav" = None.
Proof.
  destruct (merge_audio_concatenates Demo.env_fallback (fun _ _ => ret tt)
              "a.wav" ["gone.wav"; "b.wav"] "final_output.wav"
              (mkWorld {[ "a.wav" := Demo.recording 8000 2;
                          "b.wav" := Demo.recording 8000 3 ]} [])
              (Demo.recording 8000 2) (Demo.zeros 10)
              (mkWave 1 2 8000 2 (Demo.zeros 4)))
    as (content & w' & Hrun & Hwrite & Hout & Hdel & _).
  - reflexivity.
  - intros H. repeat (apply elem_of_cons in H as [H|H]; [discriminate|]).
    by apply elem_of_nil in H.
  - vm_compute. reflexivity.
  - vm_compute. reflexivity.
  - vm_compute. reflexivity.
  - intros fr Hfr. apply demo_writer_accepts.
    change (len (Demo.zeros 10)) with 10 in Hfr. lia.
  - exists content, w'. split; [done|]. split; [done|]. split.
    + vm_compute in Hwrite. by injection Hwrite as <-.
    + apply Hdel. apply elem_of_cons. by left.
Defined.

Lemma merge_audio_first_missing_witness :
  merge_audio Demo.env_fallback (fun _ _ => ret tt)
    ["gone.wav"; "b.wav"] "final_output.wav"
    (Demo.world_with "b.wav" (Demo.recording 8000 3))
  = (Ok tt,
     mkWorld (<["final_output.wav" := []]>
                (fs (Demo.world_with "b.wav" (Demo.recording 8000 3))))
             (trace (Demo.world_with "b.wav" (Demo.recording 8000 3)))).
Proof.
  apply (merge_audio_first_missing Demo.env_fallback (fun _ _ => ret tt)
           "gone.wav" ["b.wav"] "final_output.wav"
           (Demo.world_with "b.wav" (Demo.recording 8000 3))).
  - reflexivity.
  - discriminate.
  - vm_compute. reflexivity.
Defined.

(** ** [_process_audio_to_text] *)

Lemma process_long_audio_clean (env : Env) (input_file : string) (w : World) :
  exists (t : str) (w' : World),
    process_long_audio env input_file w = (Ok t, w') /\ clean t.
Proof.
  unfold process_long_audio, try_except.
  destruct (fs w !! input_file) as [[|b content]|] eqn:Hf.
  - destruct (process_long_audio_body_invalid env input_file w) as [-> | ->];
      auto; eexists _, _; split; try done; apply clean_nil.
  - destruct (api_utils_importable env) eqn:Himp.
    2:{ unfold process_long_audio_body, import_api_utils. rewrite Himp.
        eexists _, _. split; [done|apply clean_nil]. }
    rewrite (process_long_audio_body_valid env input_file w (b :: content))
      by done.
    unfold bind at 1.
    destruct (split_audio_total env input_file 30 w) as (chunks & w1 & -> & _).
    destruct chunks as [|c chunks].
    + unfold bind at 1.
      destruct (audio_to_text_total env input_file w1)
        as (t & w2 & -> & Hc & _).
      eexists _, _. split; [done|].
      destruct (truthy t); [apply strip_clean|apply clean_nil].
    + unfold bind at 1.
      destruct (process_chunks_spec env (c :: chunks) [] w1)
        as (ts & w2 & _ & -> & _).
      eexists _, _. split; [done|]. apply strip_clean.
  - destruct (process_long_audio_body_invalid env input_file w) as [-> | ->];
      auto; eexists _, _; split; try done; apply clean_nil.
Qed.

Lemma remove_saved_spec (p : string) (w : World) :
  remove_saved p w = (Ok tt, mkWorld (delete p (fs w)) (trace w)).
Proof.
  unfold remove_saved. unfold_monad.
  destruct (fs w !! p) as [c|] eqn:E.
  - rewrite bool_decide_eq_true_2 by eauto. by rewrite E.
  - rewrite bool_decide_eq_false_2 by (by intros [? ?]).
    rewrite delete_id by done. by destruct w.
Qed.

Lemma chunk_name_not_scratch (i : Z) :
  chunk_name i <> recorded_audio /\ chunk_name i <> temp_audio_input.
Proof.
  split; intros H; apply (f_equal (fun s => String.get 0 s)) in H;
    vm_compute in H; discriminate.
Qed.

(** The run of the voice path in the model, where the recording is
    always saved: the outcome is a value, and the three facts below hold
    of it. *)
Lemma process_audio_to_text_run (env : Env) (audio_bytes : bytes)
    (w : World) :
  exists (r : option str) (w' : World),
    _process_audio_to_text env audio_bytes w = (Ok r, w')
    /\ (forall t, r = Some t ->
          2 <= len t /\ strip t = t
          /\ fs w' !! recorded_audio = None
          /\ fs w' !! temp_audio_input = None)
    /\ (forall p, p <> recorded_audio -> p <> temp_audio_input ->
                  (forall i, 1 <= i -> p <> chunk_name i) ->
                  fs w' !! p = fs w !! p).
Proof.
  unfold _process_audio_to_text. unfold bind at 1.
  destruct (Z.lt_ge_cases (len audio_bytes) 100) as [Hs|Hs].
  { rewrite convert_webm_to_wav_small by done. cbn.
    exists None, w. split; [done|]. split; [intros; discriminate|done]. }
  rewrite convert_webm_to_wav_chain by done.
  set (w0 := mkWorld (delete temp_audio_input (fs w)) (trace w)).
  destruct (truthy_bytes (strategy_chain env audio_bytes)) eqn:Et; cbn [negb].
  2:{ exists None, w0. split; [done|]. split; [intros; discriminate|].
      intros p _ Hp _. subst w0. cbn [fs]. by apply lookup_delete_ne. }
  unfold try_finally, bind at 1, write_file at 1.
  set (wav := default [] (strategy_chain env audio_bytes)).
  set (w1 := mkWorld (<[recorded_audio := wav]> (fs w0)) (trace w0)).
  unfold bind at 1, os_path_exists at 1.
  assert (Hw1 : fs w1 !! recorded_audio = Some wav)
    by (subst w1; cbn [fs]; apply lookup_insert_eq).
  rewrite bool_decide_eq_true_2 by eauto.
  unfold bind at 1, os_path_getsize at 1. rewrite Hw1. cbn [andb].
  assert (Hother1 : forall p, p <> recorded_audio -> p <> temp_audio_input ->
                              fs w1 !! p = fs w !! p).
  { intros p H1 H2. subst w1 w0. cbn [fs].
    rewrite lookup_insert_ne by done. by apply lookup_delete_ne. }
  destruct (1000 <? len wav); cbn [negb].
  2:{ unfold ret at 1.
      eexists _, _. split; [by rewrite remove_saved_spec|]. split; [intros; discriminate|].
      intros p H1 H2 _. cbn [fs]. rewrite lookup_delete_ne by done.
      by apply Hother1. }
  unfold bind at 1.
  destruct (process_long_audio_clean env recorded_audio w1)
    as (t & w2 & Hrun & Hclean).
  pose proof (process_long_audio_other_files_aux env recorded_audio w1)
    as Hkeep.
  rewrite Hrun in *. cbn [snd] in Hkeep.
  assert (Htemp : fs w2 !! temp_audio_input = None).
  { rewrite Hkeep.
    - subst w1 w0. cbn [fs]. rewrite lookup_insert_ne by done.
      apply lookup_delete_eq.
    - intros i _ H. symmetry in H. by apply chunk_name_not_scratch in H. }
  rewrite (clean_strip_id t) by done.
  destruct (negb (truthy t) || (len t <? 2)) eqn:Eshort.
  - unfold ret at 1.
    eexists _, _. split; [by rewrite remove_saved_spec|]. split; [intros; discriminate|].
    intros p H1 H2 H3. cbn [fs]. rewrite lookup_delete_ne by done.
    rewrite Hkeep by done. by apply Hother1.
  - unfold ret at 1.
    eexists _, _. split; [by rewrite remove_saved_spec|]. split.
    + intros t' [= <-]. apply orb_false_iff in Eshort as [_ Hl].
      apply Z.ltb_ge in Hl. split; [done|].
      split; [by apply clean_strip_id|]. cbn [fs].
      split; [apply lookup_delete_eq|].
      by rewrite lookup_delete_ne.
    + intros p H1 H2 H3. cbn [fs]. rewrite lookup_delete_ne by done.
      rewrite Hkeep by done. by apply Hother1.
Qed.

(** X26: whatever the voice path returns, a transcript among it has at
    least two characters and no whitespace at either end; when it
    returns one, neither the saved recording nor the conversion's
    scratch file is left; and no file other than those two and the
    chunk files has changed.  The save of the recording is the model's
    write, which succeeds; an [OSError] from it is not covered. *)
Theorem process_audio_to_text_spec (env : Env) (audio_bytes : bytes)
    (w : World) (r : result (option str)) (w' : World) :
  _process_audio_to_text env audio_bytes w = (r, w') ->
  (forall t, r = Ok (Some t) ->
     2 <= len t /\ strip t = t
     /\ fs w' !! recorded_audio = None
     /\ fs w' !! temp_audio_input = None)
  /\ (forall p, p <> recorded_audio -> p <> temp_audio_input ->
                (forall i, 1 <= i -> p <> chunk_name i) ->
                fs w' !! p = fs w !! p).
Proof.
  intros Hrun.
  destruct (process_audio_to_text_run env audio_bytes w)
    as (r0 & w0 & Hrun0 & Ht & Hother).
  rewrite Hrun0 in Hrun. injection Hrun as <- <-.
  split; [|done].
  intros t [= ->]. by apply Ht.
Qed.

(** A recording of 1000 frames is transcribed by the table service as
    its first answer, stripped. *)
Lemma process_audio_to_text_spec_witness :
  exists (t : str) (w' : World),
    _process_audio_to_text Demo.env_fallback (Demo.recording 8000 1000)
      Demo.empty_world = (Ok (Some t), w')
    /\ t = of_string "namaste"
    /\ 2 <= len t /\ strip t = t
    /\ fs w' !! recorded_audio = None
    /\ fs w' !! temp_audio_input = None.
Proof.
  destruct (_process_audio_to_text Demo.env_fallback
              (Demo.recording 8000 1000) Demo.empty_world) as [r w'] eqn:E.
  pose proof (process_audio_to_text_spec Demo.env_fallback
                (Demo.recording 8000 1000) Demo.empty_world r w' E)
    as [Ht _].
  vm_compute in E. injection E as <- <-.
  eexists _, _. split; [reflexivity|]. split; [reflexivity|].
  apply Ht. reflexivity.
Defined.

(** X27: without the decode library, a recording that already is a WAV
    file of at most 1000 bytes is never transcribed: the voice path
    returns nothing, makes no transcription call and leaves neither the
    saved recording nor the scratch file behind. *)
Theorem process_audio_to_text_small_wav (env : Env) (audio_bytes : bytes)
    (w : World) :
  SOUNDFILE_AVAILABLE env = false ->
  slice audio_bytes 0 4 = b_RIFF -> slice audio_bytes 8 12 = b_WAVE ->
  100 <= len audio_bytes <= 1000 ->
  _process_audio_to_text env audio_bytes w
  = (Ok None,
     mkWorld (delete recorded_audio (delete temp_audio_input (fs w)))
             (trace w)).
Proof.
  intros Hsf H1 H2 [Hlo Hhi].
  unfold _process_audio_to_text. unfold bind at 1.
  rewrite convert_webm_to_wav_chain by done.
  assert (Hchain : strategy_chain env audio_bytes = Some audio_bytes).
  { unfold strategy_chain, library_decode, first_truthy. rewrite Hsf. cbn.
    rewrite check_existing_wav_format_Some by done.
    by rewrite truthy_bytes_Some by lia. }
  rewrite Hchain. rewrite truthy_bytes_Some by lia. cbn [negb].
  change (default [] (Some audio_bytes)) with audio_bytes.
  unfold try_finally, bind at 1, write_file at 1.
  unfold bind at 1, os_path_exists at 1. cbn [fs].
  rewrite bool_decide_eq_true_2 by (rewrite lookup_insert_eq; eauto).
  unfold bind at 1, os_path_getsize at 1. cbn [fs].
  rewrite lookup_insert_eq. cbn [andb].
  replace (1000 <? len audio_bytes) with false
    by (symmetry; apply Z.ltb_ge; lia).
  cbn [negb]. unfold ret at 1. rewrite remove_saved_spec. cbn [fs trace].
  by rewrite delete_insert_eq.
Qed.

Lemma process_audio_to_text_small_wav_witness :
  _process_audio_to_text Demo.env_fallback Demo.tagged_wav Demo.empty_world
  = (Ok None,
     mkWorld (delete recorded_audio
                (delete temp_audio_input (fs Demo.empty_world)))
             (trace Demo.empty_world)).
Proof.
  apply (process_audio_to_text_small_wav Demo.env_fallback Demo.tagged_wav
           Demo.empty_world).
  - reflexivity.
  - reflexivity.
  - reflexivity.
  - vm_compute. split; discriminate.
Defined.
